(** * 20_ChargingTheBatteries: the battery charging sketch

    A shallow embedding of [20_ChargingTheBatteries.ino] (Lessons, Chapter 01,
    lesson 04) and the properties of its [loop()].

    The sketch keeps three globals, reads one analog pin and one digital pin
    per pass through [loop()], prints one telemetry line and toggles an LED
    on a button press.  The embedding follows the sketch statement by
    statement in a small state-and-output monad:

    - [float] is IEEE 754 binary32 (the Arduino [float]), modelled exactly
      with the Standard Library's [SpecFloat] at precision 24 and maximal
      exponent 128, round to nearest even;
    - [uint8_t] is a [Z] reduced modulo 256, C++ [bool] is [bool] with the
      integral conversions written out;
    - the values returned by [analogRead] and [digitalRead] in one pass are
      the environment of that pass;
    - [Serial.print], [digitalWrite] and [delay] are recorded, in program
      order, as the effects of the pass; the characters [Serial.print]
      makes of a number are the business of the Arduino core and are not
      modelled, an effect carries the number printed.

    [setup()] opens the serial port and sets the three pin modes; it writes
    no pin and touches no global, so a run starts from the initializers of
    the globals. *)

From Stdlib Require Import ZArith QArith List Bool String Lia.
From Stdlib Require Import Floats.SpecFloat.
From stdpp Require Import base option gmap.
Import ListNotations.

Local Open Scope Z_scope.

(** ** binary32 arithmetic *)

Module Float32.

Definition prec : Z := 24.
Definition emax : Z := 128.

Definition float : Type := spec_float.

Definition add : float -> float -> float := SFadd prec emax.
Definition sub : float -> float -> float := SFsub prec emax.
Definition mul : float -> float -> float := SFmul prec emax.
Definition div : float -> float -> float := SFdiv prec emax.

(** Conversion of an integer to [float] (exact below 2^24, rounded above). *)
Definition of_int (z : Z) : float := binary_normalize prec emax z 0 false.

Definition leb : float -> float -> bool := SFleb.
Definition ltb : float -> float -> bool := SFltb.

(** A positive normal number [m * 2^e], 2^23 <= m < 2^24. *)
Definition normal (m : positive) (e : Z) : float := S754_finite false m e.

(** Identity of representation (which tells +0 from -0). *)
Definition same (x y : float) : bool :=
  match x, y with
  | S754_zero s, S754_zero s' => Bool.eqb s s'
  | S754_infinity s, S754_infinity s' => Bool.eqb s s'
  | S754_nan, S754_nan => true
  | S754_finite s m e, S754_finite s' m' e' =>
      Bool.eqb s s' && Pos.eqb m m' && Z.eqb e e'
  | _, _ => false
  end.

(** The rational a finite [float] stands for. *)
Definition to_Q (x : float) : option Q :=
  match x with
  | S754_zero _ => Some 0%Q
  | S754_finite s m e =>
      Some (inject_Z (if s then Zneg m else Zpos m) * Qpower 2 e)%Q
  | _ => None
  end.

End Float32.

Export Float32(float).

(** ** The part of the Arduino core the sketch uses *)

Module Arduino.

(** From [Arduino.h]: the two pin levels, and the number of analog pin A8
    in the pin map of the Mega 2560 (no property depends on a pin
    number). *)
Definition HIGH : Z := 1.
Definition LOW : Z := 0.
Definition A8 : Z := 62.

Definition to_uint8 (z : Z) : Z := z mod 256.

(** C++ integral conversions from and to [bool]. *)
Definition bool_of_int (z : Z) : bool := negb (z =? 0).
Definition int_of_bool (b : bool) : Z := if b then 1 else 0.

(** Modelled from the spec: [map(x, in_min, in_max, out_min, out_max)] is
    a function of the Arduino core, which the sketch calls and does not
    define.  The spec describes the value as the reading "linearly mapped
    from [0,1023] to [0,100], rounding behavior consistent with integer
    truncation"; this is the integer formula of the core ([long]
    arithmetic, division truncating toward zero). *)
Definition map (x in_min in_max out_min out_max : Z) : Z :=
  Z.quot ((x - in_min) * (out_max - out_min)) (in_max - in_min) + out_min.

(** What a pass through [loop()] does to the outside world. *)
Inductive Effect : Type :=
| SerialPrintInt (n : Z)
| SerialPrintStr (s : string)
| SerialPrintFloat (x : float)
| SerialPrintlnLong (n : Z)
| DigitalWrite (pin level : Z)
| Delay (ms : Z).

(** What the pins read during one pass. *)
Record Env : Type := mkEnv {
  analog_in : Z -> Z;
  digital_in : Z -> Z
}.

End Arduino.

Export Arduino(HIGH, LOW, A8, to_uint8, bool_of_int, int_of_bool,
               Effect, SerialPrintInt, SerialPrintStr, SerialPrintFloat,
               SerialPrintlnLong, DigitalWrite, Delay,
               Env, mkEnv, analog_in, digital_in).

(** ** Constants of the sketch *)

Definition LIGHT : Z := 22.
Definition LIGHT_BUTTON : Z := 23.
Definition CHARGING_RATE : Z := A8.

Definition PRESSED : Z := LOW.
Definition NOT_PRESSED : Z := HIGH.

Definition LOW_BATTERY_LIMIT : float := Float32.of_int 10.
Definition HIGH_BATTERY_LIMIT : float := Float32.of_int 90.
Definition START_CHARGING_AT : float := Float32.of_int 85.

Definition SECONDS_TO_FULL : Z := 30.
Definition LOOPS_PER_SECOND : Z := 20.
Definition AVERAGE_CHARGE_LEVEL : Z := 530.

Definition PERCENTAGE_FROM_EMPTY_TO_FULL : float :=
  Float32.sub HIGH_BATTERY_LIMIT LOW_BATTERY_LIMIT.

Definition PERCENTAGE_PER_SECOND : float :=
  Float32.div PERCENTAGE_FROM_EMPTY_TO_FULL (Float32.of_int SECONDS_TO_FULL).

Definition PERCENTAGE_PER_LOOP : float :=
  Float32.div PERCENTAGE_PER_SECOND (Float32.of_int LOOPS_PER_SECOND).

Definition CHARGE_PER_LIGHT_UNIT : float :=
  Float32.div PERCENTAGE_PER_LOOP (Float32.of_int AVERAGE_CHARGE_LEVEL).

(** ** Globals *)

Record Globals : Type := mkGlobals {
  battery_charge_percentage : float;
  light_on : bool;
  previous_button_state : bool
}.

Definition initial : Globals :=
  {| battery_charge_percentage := LOW_BATTERY_LIMIT;
     light_on := false;
     previous_button_state := bool_of_int NOT_PRESSED |}.

(** ** The monad of a pass: read the pins, update the globals, emit effects *)

Definition M (A : Type) : Type := Env -> Globals -> A * Globals * list Effect.

#[global] Instance M_ret : MRet M := fun A (a : A) _ g => (a, g, []).

#[global] Instance M_bind : MBind M := fun A B (k : A -> M B) (c : M A) env g =>
  let '(a, g1, out1) := c env g in
  let '(b, g2, out2) := k a env g1 in
  (b, g2, out1 ++ out2).

#[global] Instance M_fmap : FMap M := fun A B (f : A -> B) (c : M A) env g =>
  let '(a, g1, out1) := c env g in (f a, g1, out1).

Definition analogRead (pin : Z) : M Z := fun env g => (analog_in env pin, g, []).
Definition digitalRead (pin : Z) : M Z := fun env g => (digital_in env pin, g, []).
Definition emit (e : Effect) : M unit := fun _ g => (tt, g, [e]).
Definition gets {A : Type} (f : Globals -> A) : M A := fun _ g => (f g, g, []).
Definition modify (f : Globals -> Globals) : M unit := fun _ g => (tt, f g, []).

Definition set_battery_charge_percentage (x : float) (g : Globals) : Globals :=
  {| battery_charge_percentage := x;
     light_on := light_on g;
     previous_button_state := previous_button_state g |}.

Definition set_light_on (b : bool) (g : Globals) : Globals :=
  {| battery_charge_percentage := battery_charge_percentage g;
     light_on := b;
     previous_button_state := previous_button_state g |}.

Definition set_previous_button_state (b : bool) (g : Globals) : Globals :=
  {| battery_charge_percentage := battery_charge_percentage g;
     light_on := light_on g;
     previous_button_state := b |}.

Definition when (c : bool) (body : M unit) : M unit :=
  if c then body else mret tt.

(** ** [loop()] *)

Definition loop : M unit :=
  current_charging_rate ← analogRead CHARGING_RATE;
  let new_charge :=
    Float32.mul (Float32.of_int current_charging_rate) CHARGE_PER_LIGHT_UNIT in
  modify (fun g => set_battery_charge_percentage
                     (Float32.add (battery_charge_percentage g) new_charge) g);;
  emit (SerialPrintInt 0);;
  emit (SerialPrintStr ", ");;
  emit (SerialPrintInt 100);;
  emit (SerialPrintStr ", ");;
  battery ← gets battery_charge_percentage;
  emit (SerialPrintFloat battery);;
  emit (SerialPrintStr ", ");;
  emit (SerialPrintlnLong (Arduino.map current_charging_rate 0 1023 0 100));;
  button_state ← to_uint8 <$> digitalRead LIGHT_BUTTON;
  previous ← gets previous_button_state;
  when (negb (button_state =? int_of_bool previous))
    (when (button_state =? PRESSED)
       (lit ← gets light_on;
        if (lit : bool) then
          emit (DigitalWrite LIGHT LOW);;
          modify (set_light_on false)
        else
          emit (DigitalWrite LIGHT HIGH);;
          modify (set_light_on true));;
     modify (set_previous_button_state (bool_of_int button_state)));;
  emit (Delay 50).

(** One pass through [loop()]: the globals and the effects it leaves. *)
Definition cycle (env : Env) (g : Globals) : Globals * list Effect :=
  let '(_, g', out) := loop env g in (g', out).

(** [loop()] called once per element of [inputs], as [main] does forever. *)
Fixpoint run (inputs : list Env) (g : Globals) : Globals * list Effect :=
  match inputs with
  | [] => (g, [])
  | env :: rest =>
      let '(g1, out1) := cycle env g in
      let '(g2, out2) := run rest g1 in
      (g2, out1 ++ out2)
  end.

(** The pins of one pass: the photoresistor reads [rate], the button pin
    reads [button]. *)
Definition reads (rate button : Z) : Env :=
  {| analog_in := fun _ => rate; digital_in := fun _ => button |}.

Definition rate_of (env : Env) : Z := analog_in env CHARGING_RATE.
Definition button_of (env : Env) : Z := to_uint8 (digital_in env LIGHT_BUTTON).

(** ** Derived views of a pass *)

(** The condition under which [loop()] toggles the light. *)
Definition toggles (previous : bool) (button_state : Z) : bool :=
  negb (button_state =? int_of_bool previous) && (button_state =? PRESSED).

(** The seven prints of a pass. *)
Definition telemetry (battery : float) (rate : Z) : list Effect :=
  [ SerialPrintInt 0; SerialPrintStr ", "; SerialPrintInt 100;
    SerialPrintStr ", "; SerialPrintFloat battery; SerialPrintStr ", ";
    SerialPrintlnLong (Arduino.map rate 0 1023 0 100) ].

Definition charged (battery : float) (rate : Z) : float :=
  Float32.add battery (Float32.mul (Float32.of_int rate) CHARGE_PER_LIGHT_UNIT).

(** ** Vocabulary of the properties *)

(** The two values [digitalRead] returns. *)
Definition is_level (v : Z) : Prop := v = LOW \/ v = HIGH.

(** The range of [analogRead]. *)
Definition in_range (r : Z) : Prop := 0 <= r <= 1023.

(** A press edge: the button read NOT_PRESSED on the pass before and reads
    PRESSED on this one.  A release edge is the opposite change. *)
Definition press_edge (before now : Z) : bool :=
  (before =? NOT_PRESSED) && (now =? PRESSED).

Definition release_edge (before now : Z) : bool :=
  (before =? PRESSED) && (now =? NOT_PRESSED).

(** For each pass, whether it is a press edge; [before] is what the button
    read ahead of the first pass. *)
Fixpoint press_edges (before : Z) (buttons : list Z) : list bool :=
  match buttons with
  | [] => []
  | now :: rest => press_edge before now :: press_edges now rest
  end.

Fixpoint release_edges (before : Z) (buttons : list Z) : list bool :=
  match buttons with
  | [] => []
  | now :: rest => release_edge before now :: release_edges now rest
  end.

(** For each pass of a run, whether [light_on] changed during it. *)
Fixpoint toggle_trace (inputs : list Env) (g : Globals) : list bool :=
  match inputs with
  | [] => []
  | env :: rest =>
      let g' := fst (cycle env g) in
      xorb (light_on g) (light_on g') :: toggle_trace rest g'
  end.

(** The [digitalWrite] calls among some effects, in order. *)
Definition pin_writes (out : list Effect) : list (Z * Z) :=
  flat_map (fun e => match e with
                     | DigitalWrite pin level => [(pin, level)]
                     | _ => []
                     end) out.

(** The lines ended by [Serial.println] among some effects. *)
Definition lines_printed (out : list Effect) : nat :=
  length (List.filter (fun e => match e with
                                | SerialPrintlnLong _ => true
                                | _ => false
                                end) out).

(** What an effect does to the levels of the output pins. *)
Definition drive (pins : gmap Z Z) (e : Effect) : gmap Z Z :=
  match e with
  | DigitalWrite pin level => <[pin := level]> pins
  | _ => pins
  end.

(** The level each output pin was last driven to. *)
Definition pin_levels (out : list Effect) : gmap Z Z :=
  fold_left drive out ∅.

(** What ties [light_on] to the effects so far: no write yet and the light
    off, or the last level written to LIGHT is the one [light_on] says. *)
Definition light_agrees (g : Globals) (out : list Effect) : Prop :=
  (pin_writes out = [] /\ pin_levels out !! LIGHT = None
   /\ light_on g = false)
  \/ pin_levels out !! LIGHT = Some (if light_on g then HIGH else LOW).

(** The integer that ends the telemetry line. *)
Fixpoint rescaled_field (out : list Effect) : option Z :=
  match out with
  | [] => None
  | SerialPrintlnLong n :: _ => Some n
  | _ :: rest => rescaled_field rest
  end.

(** The spec's accumulated percentage: LOW_BATTERY_LIMIT + r1 * c + ... +
    rn * c, the terms added from left to right in [float] arithmetic with
    c the derived CHARGE_PER_LIGHT_UNIT. *)
Definition spec_accumulated (readings : list Z) : float :=
  fold_left Float32.add
    (List.map (fun r => Float32.mul (Float32.of_int r) CHARGE_PER_LIGHT_UNIT)
       readings)
    LOW_BATTERY_LIMIT.

(** The battery levels the sketch can hold: m * 2^e with 24 significant
    bits, at most 2^23. *)
Definition battery_ok (b : float) : bool :=
  match b with
  | S754_finite false m e =>
      (2 ^ 23 <=? Zpos m) && (Zpos m <? 2 ^ 24)
      && (-20 <=? e) && (e <=? 0)
      && ((e <? 0) || (Zpos m =? 2 ^ 23))
  | _ => false
  end.

(** The charge one pass can add: zero, or m * 2^e with 24 significant bits
    and exponent between -35 and -25. *)
Definition charge_ok (x : float) : bool :=
  match x with
  | S754_zero false => true
  | S754_finite false m e =>
      (2 ^ 23 <=? Zpos m) && (Zpos m <? 2 ^ 24)
      && (-35 <=? e) && (e <=? -25)
  | _ => false
  end.

(** The integers lo, lo + 1, ..., lo + n - 1. *)
Definition Zrange (lo : Z) (n : nat) : list Z :=
  List.map (fun i => lo + Z.of_nat i) (seq 0 n).

(** ** Vocabulary of rounding *)

(** [mrs] is what [n] one-bit right shifts leave of the integer [M]: the
    quotient [shr_m], the bit shifted out last [shr_r], and whether a one
    was shifted out before it [shr_s]; [t] is twice the part of [M] the
    sticky bit stands for. *)
Definition shifted (M n : Z) (mrs : shr_record) : Prop :=
  0 <= shr_m mrs /\
  exists t : Z,
    0 <= t < 2 ^ n
    /\ 2 * M = 2 ^ (n + 1) * shr_m mrs + (if shr_r mrs then 2 ^ n else 0) + t
    /\ (shr_s mrs = false <-> t = 0).

(** The [float] with 24-bit significand [n] at exponent [E + s],
    renormalised when rounding carried [n] up to 2^24. *)
Definition rounded (E s n : Z) : float :=
  if n =? 2 ^ 24
  then S754_finite false (2 ^ 23)%positive (E + s + 1)
  else S754_finite false (Z.to_pos n) (E + s).

(** ** [setup()]: the wait and the pin modes *)

(** Pin modes of [Arduino.h]. *)
Definition INPUT : Z := 0.
Definition OUTPUT : Z := 1.
Definition INPUT_PULLUP : Z := 2.

(** What [setup()] does to the board. *)
Inductive SetupEffect : Type :=
| SerialBegin (baud : Z)
| PinMode (pin mode : Z).

(** [while (!Serial) { ; }]: [ready k] is what [Serial] converts to the
    k-th time the condition is evaluated (counting from [poll]); the loop
    leaves at the first evaluation that finds it true, and the result is
    its index.  [fuel] bounds the evaluations of the model. *)
Fixpoint wait_for_serial (ready : nat -> bool) (poll fuel : nat) : option nat :=
  match fuel with
  | O => None
  | S fuel' =>
      if ready poll then Some poll
      else wait_for_serial ready (S poll) fuel'
  end.

(** [setup()]: the effects in program order and the number of times the
    wait found the port not ready, when the wait ends within [fuel]
    evaluations. *)
Definition setup (ready : nat -> bool) (fuel : nat)
  : option (list SetupEffect * nat) :=
  match wait_for_serial ready 0 fuel with
  | None => None
  | Some polls =>
      Some ([ SerialBegin 9600;
              PinMode LIGHT OUTPUT;
              PinMode LIGHT_BUTTON INPUT_PULLUP;
              PinMode CHARGING_RATE INPUT ], polls)
  end.

(** The mode each pin was last given. *)
Definition configure (modes : gmap Z Z) (e : SetupEffect) : gmap Z Z :=
  match e with
  | PinMode pin mode => <[pin := mode]> modes
  | SerialBegin _ => modes
  end.

Definition pin_modes (effects : list SetupEffect) : gmap Z Z :=
  fold_left configure effects ∅.

(** ** Vocabulary of runs *)

(** The battery levels after each pass, for the readings [rates] from the
    level [b]. *)
Fixpoint levels_from (b : float) (rates : list Z) : list float :=
  match rates with
  | [] => []
  | r :: rest => charged b r :: levels_from (charged b r) rest
  end.

(** The levels [Serial.print] reported, in order. *)
Definition reported_levels (out : list Effect) : list float :=
  flat_map (fun e => match e with
                     | SerialPrintFloat x => [x]
                     | _ => []
                     end) out.

(** The milliseconds spent in [delay]. *)
Definition total_delay (out : list Effect) : Z :=
  fold_right (fun e ms => match e with
                          | Delay d => d + ms
                          | _ => ms
                          end) 0 out.

(** [k] writes to LIGHT that switch a light, on when [lit] holds, off, on
    and so on in turn. *)
Fixpoint alternating (lit : bool) (k : nat) : list (Z * Z) :=
  match k with
  | O => []
  | S k' => (LIGHT, if lit then LOW else HIGH) :: alternating (negb lit) k'
  end.

(** How many passes of a list are marked. *)
Definition count_true (marks : list bool) : nat :=
  length (List.filter (fun mark => mark) marks).

(** ** Proof tools *)

(** Proves [Forall P [x1; ...; xn]] by running [tac] on each [P xi]. *)
Ltac forall_elements tac :=
  repeat (apply List.Forall_cons; [tac |]); apply List.Forall_nil.

(** Writes the powers of two that bound a binary32 significand as
    numerals, for [lia] and [nia]. *)
Ltac numeral_powers :=
  change (2 ^ 1) with 2 in *; change (2 ^ 2) with 4 in *;
  change (2 ^ 5) with 32 in *; change (2 ^ 23) with 8388608 in *;
  change (2 ^ 24) with 16777216 in *; change (2 ^ 25) with 33554432 in *.

Create HintDb levels.

(** ** The pass in closed form *)

Lemma cycle_unfold (env : Env) (g : Globals) :
  cycle env g =
  let b := button_of env in
  let t := toggles (previous_button_state g) b in
  let battery := charged (battery_charge_percentage g) (rate_of env) in
  ({| battery_charge_percentage := battery;
      light_on := if t then negb (light_on g) else light_on g;
      previous_button_state :=
        if negb (b =? int_of_bool (previous_button_state g))
        then bool_of_int b else previous_button_state g |},
   telemetry battery (rate_of env)
   ++ (if t then [DigitalWrite LIGHT (if light_on g then LOW else HIGH)] else [])
   ++ [Delay 50]).
Proof.
  destruct g as [bat lit prev].
  cbv beta iota zeta delta
    [cycle loop mbind M_bind mret M_ret fmap M_fmap analogRead digitalRead
     emit gets modify when toggles button_of rate_of charged telemetry
     set_battery_charge_percentage set_light_on set_previous_button_state
     battery_charge_percentage light_on previous_button_state app].
  destruct (to_uint8 (digital_in env LIGHT_BUTTON) =? int_of_bool prev);
    cbv beta iota zeta delta [negb andb app]; [reflexivity|].
  destruct (to_uint8 (digital_in env LIGHT_BUTTON) =? PRESSED), lit;
    reflexivity.
Qed.

Lemma cycle_battery (env : Env) (g : Globals) :
  battery_charge_percentage (fst (cycle env g)) =
  charged (battery_charge_percentage g) (rate_of env).
Proof. rewrite cycle_unfold. reflexivity. Qed.

Lemma cycle_light_on (env : Env) (g : Globals) :
  light_on (fst (cycle env g)) =
  if toggles (previous_button_state g) (button_of env)
  then negb (light_on g) else light_on g.
Proof. rewrite cycle_unfold. reflexivity. Qed.

Lemma cycle_previous (env : Env) (g : Globals) :
  previous_button_state (fst (cycle env g)) =
  if negb (button_of env =? int_of_bool (previous_button_state g))
  then bool_of_int (button_of env) else previous_button_state g.
Proof. rewrite cycle_unfold. reflexivity. Qed.

Lemma cycle_effects (env : Env) (g : Globals) :
  snd (cycle env g) =
  telemetry (charged (battery_charge_percentage g) (rate_of env)) (rate_of env)
  ++ (if toggles (previous_button_state g) (button_of env)
      then [DigitalWrite LIGHT (if light_on g then LOW else HIGH)] else [])
  ++ [Delay 50].
Proof. rewrite cycle_unfold. reflexivity. Qed.

Lemma run_cons (env : Env) (rest : list Env) (g : Globals) :
  run (env :: rest) g =
  (fst (run rest (fst (cycle env g))),
   snd (cycle env g) ++ snd (run rest (fst (cycle env g)))).
Proof.
  simpl. destruct (cycle env g) as [g1 out1].
  simpl. destruct (run rest g1) as [g2 out2]. reflexivity.
Qed.

Lemma run_app (xs ys : list Env) (g : Globals) :
  run (xs ++ ys) g =
  (fst (run ys (fst (run xs g))),
   snd (run xs g) ++ snd (run ys (fst (run xs g)))).
Proof.
  revert g. induction xs as [|env xs IH]; intros g.
  - simpl. destruct (run ys g). reflexivity.
  - rewrite <- app_comm_cons, !run_cons, IH. simpl.
    rewrite app_assoc. reflexivity.
Qed.

(** ** The button: levels, edges and the toggle condition *)

Lemma is_level_uint8 (v : Z) : is_level v -> to_uint8 v = v.
Proof. intros [-> | ->]; reflexivity. Qed.

Lemma int_of_bool_of_int (v : Z) : is_level v -> int_of_bool (bool_of_int v) = v.
Proof. intros [-> | ->]; reflexivity. Qed.

Lemma is_level_int_of_bool (b : bool) : is_level (int_of_bool b).
Proof. destruct b; [right | left]; reflexivity. Qed.

Lemma is_level_PRESSED : is_level PRESSED.
Proof. left. reflexivity. Qed.

Lemma is_level_NOT_PRESSED : is_level NOT_PRESSED.
Proof. right. reflexivity. Qed.

#[global] Hint Resolve is_level_int_of_bool is_level_PRESSED
  is_level_NOT_PRESSED : levels.

(** The sketch toggles exactly when the stored state is NOT_PRESSED and the
    button reads PRESSED. *)
Lemma toggles_press_edge (previous : bool) (b : Z) :
  toggles previous b = press_edge (int_of_bool previous) b.
Proof.
  unfold toggles, press_edge, PRESSED, NOT_PRESSED, LOW, HIGH.
  destruct previous; simpl int_of_bool.
  - destruct (Z.eqb_spec b 0) as [-> | Hb]; [reflexivity |].
    simpl. apply andb_false_r.
  - destruct (Z.eqb_spec b 0) as [-> | Hb]; reflexivity.
Qed.

Lemma press_not_release (before now : Z) :
  press_edge before now && release_edge before now = false.
Proof.
  unfold press_edge, release_edge, PRESSED, NOT_PRESSED, LOW, HIGH.
  destruct (Z.eqb_spec before 1) as [-> | H1]; simpl; [| reflexivity].
  apply andb_false_r.
Qed.

Lemma cycle_previous_level (env : Env) (g : Globals) :
  is_level (digital_in env LIGHT_BUTTON) ->
  int_of_bool (previous_button_state (fst (cycle env g))) = button_of env.
Proof.
  intros Hl. rewrite cycle_previous. unfold button_of.
  rewrite (is_level_uint8 _ Hl).
  destruct (Z.eqb_spec (digital_in env LIGHT_BUTTON)
              (int_of_bool (previous_button_state g))) as [He | Hne]; simpl.
  - symmetry. exact He.
  - apply int_of_bool_of_int, Hl.
Qed.

Lemma pin_levels_app (out1 out2 : list Effect) :
  pin_levels (out1 ++ out2) = fold_left drive out2 (pin_levels out1).
Proof. unfold pin_levels. apply fold_left_app. Qed.

Lemma pin_writes_app (out1 out2 : list Effect) :
  pin_writes (out1 ++ out2) = pin_writes out1 ++ pin_writes out2.
Proof. unfold pin_writes. apply flat_map_app. Qed.

(** ** Properties of the button and the light *)

(** C6: at the end of every pass, whether the button reading was a press
    edge, a release edge or unchanged, [previous_button_state] holds the
    value [digitalRead] returned during that pass. *)
Theorem previous_button_state_is_last_reading
    (env : Env) (g : Globals)
    (Hlevel : is_level (digital_in env LIGHT_BUTTON)) :
  int_of_bool (previous_button_state (fst (cycle env g))) =
  digital_in env LIGHT_BUTTON.
Proof.
  rewrite (cycle_previous_level env g Hlevel).
  apply is_level_uint8, Hlevel.
Qed.

Lemma previous_button_state_is_last_reading_witness :
  is_level (digital_in (reads 530 PRESSED) LIGHT_BUTTON) /\
  int_of_bool
    (previous_button_state (fst (cycle (reads 530 PRESSED) initial))) =
  digital_in (reads 530 PRESSED) LIGHT_BUTTON.
Proof.
  assert (Hl : is_level (digital_in (reads 530 PRESSED) LIGHT_BUTTON))
    by (left; reflexivity).
  split; [exact Hl |].
  exact (previous_button_state_is_last_reading (reads 530 PRESSED) initial Hl).
Defined.

(** C7: when two consecutive passes read the same button state, PRESSED or
    NOT_PRESSED, the second pass does not toggle the light: [light_on] is
    unchanged and no pin is written. *)
Theorem same_reading_no_second_toggle
    (g : Globals) (env1 env2 : Env)
    (Hlevel : is_level (digital_in env1 LIGHT_BUTTON))
    (Hsame : digital_in env2 LIGHT_BUTTON = digital_in env1 LIGHT_BUTTON) :
  light_on (fst (cycle env2 (fst (cycle env1 g)))) =
  light_on (fst (cycle env1 g))
  /\ pin_writes (snd (cycle env2 (fst (cycle env1 g)))) = [].
Proof.
  assert (Hnone : toggles (previous_button_state (fst (cycle env1 g)))
                    (button_of env2) = false).
  { rewrite toggles_press_edge, (cycle_previous_level env1 g Hlevel).
    unfold button_of. rewrite Hsame.
    rewrite (is_level_uint8 _ Hlevel).
    destruct Hlevel as [-> | ->]; reflexivity. }
  split.
  - rewrite cycle_light_on, Hnone. reflexivity.
  - rewrite cycle_effects, Hnone. reflexivity.
Qed.

Lemma same_reading_no_second_toggle_witness :
  is_level (digital_in (reads 530 PRESSED) LIGHT_BUTTON) /\
  digital_in (reads 12 PRESSED) LIGHT_BUTTON =
  digital_in (reads 530 PRESSED) LIGHT_BUTTON /\
  light_on (fst (cycle (reads 12 PRESSED)
                   (fst (cycle (reads 530 PRESSED) initial)))) =
  light_on (fst (cycle (reads 530 PRESSED) initial))
  /\ pin_writes (snd (cycle (reads 12 PRESSED)
                        (fst (cycle (reads 530 PRESSED) initial)))) = [].
Proof.
  assert (Hl : is_level (digital_in (reads 530 PRESSED) LIGHT_BUTTON))
    by (left; reflexivity).
  split; [exact Hl |].
  split; [reflexivity |].
  exact (same_reading_no_second_toggle initial
           (reads 530 PRESSED) (reads 12 PRESSED) Hl eq_refl).
Defined.

(** C8: the effects of a pass are exactly the telemetry line, then one
    write to the LIGHT pin if and only if the pass is a press edge, then
    the pacing delay; without a press edge [light_on] is unchanged and no
    pin is written, whatever happened before ([before]); the three globals
    are the only state the pass keeps. *)
Theorem cycle_side_effects
    (env : Env) (g : Globals) (before : list Effect) :
  let edge := press_edge (int_of_bool (previous_button_state g))
                (button_of env) in
  let g' := fst (cycle env g) in
  let out := snd (cycle env g) in
  out = telemetry (battery_charge_percentage g') (rate_of env)
        ++ (if edge
            then [DigitalWrite LIGHT (if light_on g' then HIGH else LOW)]
            else [])
        ++ [Delay 50]
  /\ pin_writes out =
     (if edge then [(LIGHT, if light_on g' then HIGH else LOW)] else [])
  /\ lines_printed out = 1%nat
  /\ light_on g' = (if edge then negb (light_on g) else light_on g)
  /\ pin_levels (before ++ out) =
     (if edge
      then <[LIGHT := if light_on g' then HIGH else LOW]> (pin_levels before)
      else pin_levels before).
Proof.
  cbv zeta.
  rewrite pin_levels_app.
  rewrite cycle_effects, cycle_battery, cycle_light_on, toggles_press_edge.
  destruct (press_edge _ _), (light_on g); repeat split; reflexivity.
Qed.

Lemma toggle_trace_press_edges (inputs : list Env) (g : Globals) :
  Forall (fun env => is_level (digital_in env LIGHT_BUTTON)) inputs ->
  toggle_trace inputs g =
  press_edges (int_of_bool (previous_button_state g))
    (List.map button_of inputs).
Proof.
  intros Hall. revert g.
  induction Hall as [|env rest Hl _ IH]; intros g; [reflexivity |].
  cbn [toggle_trace List.map press_edges].
  rewrite IH, (cycle_previous_level env g Hl).
  f_equal.
  rewrite cycle_light_on, toggles_press_edge.
  destruct (press_edge _ _), (light_on g); reflexivity.
Qed.

Lemma press_edges_not_release (before : Z) (buttons : list Z) :
  forallb (fun '(pressed, released) => negb (pressed && released))
    (combine (press_edges before buttons) (release_edges before buttons))
  = true.
Proof.
  revert before. induction buttons as [|now rest IH]; intros before.
  - reflexivity.
  - cbn [press_edges release_edges combine forallb].
    rewrite press_not_release, IH. reflexivity.
Qed.

Lemma run_pin_writes_toggle_trace (inputs : list Env) (g : Globals) :
  length (pin_writes (snd (run inputs g))) =
  length (List.filter (fun toggled => toggled) (toggle_trace inputs g)).
Proof.
  revert g. induction inputs as [|env rest IH]; intros g; [reflexivity |].
  rewrite run_cons. cbn [snd toggle_trace List.filter].
  rewrite pin_writes_app, length_app, IH, cycle_effects, cycle_light_on.
  destruct (toggles _ _), (light_on g); reflexivity.
Qed.

(** C2: for every sequence of button readings the light toggles on the
    passes that are press edges and on no others, so never on a release
    edge, and the run writes the pin once per press edge (the button
    counts as NOT_PRESSED before the first pass, as the sketch initialises
    [previous_button_state]); from the initial state (light off) the
    readings NOT_PRESSED, PRESSED, PRESSED, NOT_PRESSED, PRESSED toggle it
    on passes 2 and 5 only. *)
Theorem light_toggles_on_press_edges
    (inputs : list Env) (rate : Z)
    (Hlevels : Forall (fun env => is_level (digital_in env LIGHT_BUTTON))
                 inputs) :
  toggle_trace inputs initial =
  press_edges NOT_PRESSED (List.map button_of inputs)
  /\ forallb (fun '(toggled, released) => negb (toggled && released))
       (combine (toggle_trace inputs initial)
          (release_edges NOT_PRESSED (List.map button_of inputs))) = true
  /\ length (pin_writes (snd (run inputs initial))) =
     length (List.filter (fun pressed => pressed)
               (press_edges NOT_PRESSED (List.map button_of inputs)))
  /\ light_on initial = false
  /\ toggle_trace
       (List.map (reads rate)
          [NOT_PRESSED; PRESSED; PRESSED; NOT_PRESSED; PRESSED])
       initial
     = [false; true; false; false; true].
Proof.
  pose proof (toggle_trace_press_edges inputs initial Hlevels) as Htrace.
  change (int_of_bool (previous_button_state initial)) with NOT_PRESSED
    in Htrace.
  split; [exact Htrace |].
  split; [rewrite Htrace; apply press_edges_not_release |].
  split; [rewrite run_pin_writes_toggle_trace, Htrace; reflexivity |].
  split; [reflexivity |].
  rewrite toggle_trace_press_edges.
  - reflexivity.
  - cbn [List.map]. forall_elements ltac:(cbn; auto with levels).
Qed.

Lemma light_toggles_on_press_edges_witness :
  Forall (fun env => is_level (digital_in env LIGHT_BUTTON))
    [reads 530 NOT_PRESSED; reads 530 PRESSED] /\
  toggle_trace [reads 530 NOT_PRESSED; reads 530 PRESSED] initial =
  [false; true].
Proof.
  assert (Hl : Forall (fun env => is_level (digital_in env LIGHT_BUTTON))
                 [reads 530 NOT_PRESSED; reads 530 PRESSED]).
  { forall_elements ltac:(first [left; reflexivity | right; reflexivity]). }
  split; [exact Hl |].
  exact (proj1 (light_toggles_on_press_edges
                  [reads 530 NOT_PRESSED; reads 530 PRESSED] 530 Hl)).
Defined.

(** ** The light and its pin *)

Lemma cycle_light_agrees (env : Env) (g : Globals) (out : list Effect) :
  light_agrees g out ->
  light_agrees (fst (cycle env g)) (out ++ snd (cycle env g)).
Proof.
  intros Hagree. unfold light_agrees.
  rewrite pin_levels_app, pin_writes_app, cycle_effects, cycle_light_on.
  destruct (toggles (previous_button_state g) (button_of env)).
  - right. cbn [telemetry app fold_left drive].
    rewrite lookup_insert_eq. destruct (light_on g); reflexivity.
  - cbn [telemetry app fold_left drive pin_writes flat_map].
    rewrite app_nil_r. exact Hagree.
Qed.

Lemma run_light_agrees (inputs : list Env) (g : Globals) (out : list Effect) :
  light_agrees g out ->
  light_agrees (fst (run inputs g)) (out ++ snd (run inputs g)).
Proof.
  revert g out. induction inputs as [|env rest IH]; intros g out Hagree.
  - simpl. rewrite app_nil_r. exact Hagree.
  - rewrite run_cons. cbn [fst snd]. rewrite app_assoc.
    apply IH, cycle_light_agrees, Hagree.
Qed.

(** C10: after every pass [light_on] agrees with the level last written to
    the LIGHT pin: either the pin was never written and the light is still
    off, or the last write was HIGH exactly when [light_on] is true; and a
    pass writes the pin, with the new level, exactly when it changes
    [light_on]. *)
Theorem light_on_agrees_with_pin
    (inputs : list Env) (env : Env) (g0 : Globals) :
  let g := fst (run inputs initial) in
  let out := snd (run inputs initial) in
  ((pin_writes out = [] /\ pin_levels out !! LIGHT = None
    /\ light_on g = false)
   \/ pin_levels out !! LIGHT = Some (if light_on g then HIGH else LOW))
  /\ pin_writes (snd (cycle env g0)) =
     (if xorb (light_on g0) (light_on (fst (cycle env g0)))
      then [(LIGHT, if light_on (fst (cycle env g0)) then HIGH else LOW)]
      else []).
Proof.
  cbv zeta. split.
  - apply (run_light_agrees inputs initial []).
    left. repeat split; reflexivity.
  - rewrite cycle_effects, cycle_light_on.
    destruct (toggles _ _), (light_on g0); reflexivity.
Qed.

(** ** Charging *)

Lemma run_battery (inputs : list Env) (g : Globals) :
  battery_charge_percentage (fst (run inputs g)) =
  fold_left Float32.add
    (List.map (fun r => Float32.mul (Float32.of_int r) CHARGE_PER_LIGHT_UNIT)
       (List.map rate_of inputs))
    (battery_charge_percentage g).
Proof.
  revert g. induction inputs as [|env rest IH]; intros g; [reflexivity |].
  rewrite run_cons. cbn [fst List.map fold_left].
  rewrite IH, cycle_battery. reflexivity.
Qed.

(** C1: for readings r1 ... rn in 0-1023 and the button never pressed, the
    battery level after n passes from the initial state is
    LOW_BATTERY_LIMIT + r1 * CHARGE_PER_LIGHT_UNIT + ... +
    rn * CHARGE_PER_LIGHT_UNIT, evaluated in [float] arithmetic in the
    order of the passes, with the derived coefficient itself. *)
Theorem battery_accumulates_readings
    (inputs : list Env)
    (Hrange : Forall (fun env => in_range (rate_of env)) inputs)
    (Hidle : Forall (fun env => digital_in env LIGHT_BUTTON = NOT_PRESSED)
               inputs) :
  battery_charge_percentage (fst (run inputs initial)) =
  spec_accumulated (List.map rate_of inputs).
Proof. apply run_battery. Qed.

Lemma battery_accumulates_readings_witness :
  Forall (fun env => in_range (rate_of env))
    [reads 530 NOT_PRESSED; reads 1023 NOT_PRESSED; reads 0 NOT_PRESSED] /\
  Forall (fun env => digital_in env LIGHT_BUTTON = NOT_PRESSED)
    [reads 530 NOT_PRESSED; reads 1023 NOT_PRESSED; reads 0 NOT_PRESSED] /\
  battery_charge_percentage
    (fst (run [reads 530 NOT_PRESSED; reads 1023 NOT_PRESSED;
               reads 0 NOT_PRESSED] initial)) =
  spec_accumulated [530; 1023; 0].
Proof.
  assert (Hr : Forall (fun env => in_range (rate_of env))
                 [reads 530 NOT_PRESSED; reads 1023 NOT_PRESSED;
                  reads 0 NOT_PRESSED]).
  { forall_elements ltac:(unfold in_range, rate_of; simpl; lia). }
  assert (Hb : Forall (fun env => digital_in env LIGHT_BUTTON = NOT_PRESSED)
                 [reads 530 NOT_PRESSED; reads 1023 NOT_PRESSED;
                  reads 0 NOT_PRESSED]).
  { forall_elements ltac:(reflexivity). }
  split; [exact Hr |]. split; [exact Hb |].
  exact (battery_accumulates_readings _ Hr Hb).
Defined.

(** The order of the sum matters in [float] arithmetic: for the readings
    2, 2 the sketch holds (10 + 2c) + 2c = 10486816 * 2^-20, while
    10 + (2c + 2c) is 10486815 * 2^-20. *)
Remark accumulation_follows_the_passes :
  battery_charge_percentage
    (fst (run [reads 2 NOT_PRESSED; reads 2 NOT_PRESSED] initial))
  = Float32.normal 10486816 (-20)
  /\ Float32.add LOW_BATTERY_LIMIT
       (Float32.add
          (Float32.mul (Float32.of_int 2) CHARGE_PER_LIGHT_UNIT)
          (Float32.mul (Float32.of_int 2) CHARGE_PER_LIGHT_UNIT))
     = Float32.normal 10486815 (-20).
Proof. split; vm_compute; reflexivity. Qed.

(** C5: the coefficient is ((HIGH_BATTERY_LIMIT - LOW_BATTERY_LIMIT) /
    SECONDS_TO_FULL) / LOOPS_PER_SECOND / AVERAGE_CHARGE_LEVEL, a constant
    of the five configuration values (the [float] 8643960 * 2^-35, within
    2^-35 of 80/30/20/530), and every pass adds the raw reading times this
    coefficient to the battery level. *)
Theorem charge_coefficient_derivation (env : Env) (g : Globals) :
  CHARGE_PER_LIGHT_UNIT =
  Float32.div
    (Float32.div
       (Float32.div (Float32.sub HIGH_BATTERY_LIMIT LOW_BATTERY_LIMIT)
          (Float32.of_int SECONDS_TO_FULL))
       (Float32.of_int LOOPS_PER_SECOND))
    (Float32.of_int AVERAGE_CHARGE_LEVEL)
  /\ CHARGE_PER_LIGHT_UNIT = Float32.normal 8643960 (-35)
  /\ (exists c : Q,
        Float32.to_Q CHARGE_PER_LIGHT_UNIT = Some c
        /\ ((90 - 10) / 30 / 20 / 530 - c < Qpower 2 (-35))%Q
        /\ (c - (90 - 10) / 30 / 20 / 530 < Qpower 2 (-35))%Q)
  /\ battery_charge_percentage (fst (cycle env g)) =
     Float32.add (battery_charge_percentage g)
       (Float32.mul (Float32.of_int (analog_in env CHARGING_RATE))
          CHARGE_PER_LIGHT_UNIT).
Proof.
  split; [reflexivity |].
  split; [vm_compute; reflexivity |].
  split.
  - eexists. split; [vm_compute; reflexivity |].
    split; vm_compute; reflexivity.
  - apply cycle_battery.
Qed.

(** ** Telemetry *)

Lemma cycle_rescaled_field (env : Env) (g : Globals) :
  rescaled_field (snd (cycle env g)) =
  Some (Arduino.map (rate_of env) 0 1023 0 100).
Proof. rewrite cycle_effects. reflexivity. Qed.

(** C4: for a raw reading in 0-1023 the fourth telemetry field is the
    reading mapped linearly from [0,1023] to [0,100] and truncated to an
    integer, reading * 100 / 1023 rounded down; it lies in 0-100 (and the
    product fits the 32-bit [long] of the computation). *)
Theorem rescaled_field_linear_truncated
    (env : Env) (g : Globals) (Hrange : in_range (rate_of env)) :
  exists field : Z,
    rescaled_field (snd (cycle env g)) = Some field
    /\ field = rate_of env * 100 / 1023
    /\ 1023 * field <= 100 * rate_of env < 1023 * (field + 1)
    /\ 0 <= field <= 100
    /\ - 2 ^ 31 <= rate_of env * 100 < 2 ^ 31.
Proof.
  unfold in_range in Hrange.
  exists (rate_of env * 100 / 1023).
  split.
  - rewrite cycle_rescaled_field. unfold Arduino.map.
    rewrite !Z.sub_0_r, Z.add_0_r, Z.quot_div_nonneg by lia. reflexivity.
  - split; [reflexivity |].
    pose proof (Z.div_mod (rate_of env * 100) 1023 ltac:(lia)) as Hdm.
    pose proof (Z.mod_pos_bound (rate_of env * 100) 1023 ltac:(lia)) as Hmod.
    repeat split; lia.
Qed.

Lemma rescaled_field_linear_truncated_witness :
  in_range (rate_of (reads 530 NOT_PRESSED)) /\
  exists field : Z,
    rescaled_field (snd (cycle (reads 530 NOT_PRESSED) initial)) = Some field
    /\ field = rate_of (reads 530 NOT_PRESSED) * 100 / 1023
    /\ 1023 * field <= 100 * rate_of (reads 530 NOT_PRESSED)
       < 1023 * (field + 1)
    /\ 0 <= field <= 100
    /\ - 2 ^ 31 <= rate_of (reads 530 NOT_PRESSED) * 100 < 2 ^ 31.
Proof.
  assert (Hr : in_range (rate_of (reads 530 NOT_PRESSED)))
    by (unfold in_range, rate_of; simpl; lia).
  split; [exact Hr |].
  exact (rescaled_field_linear_truncated (reads 530 NOT_PRESSED) initial Hr).
Defined.

(** C3, as the sketch has it: from a battery level of 10 with the light
    off, one pass reading 530 adds exactly PERCENTAGE_PER_LOOP, the [float]
    (90 - 10) / 30 / 20 (530 * CHARGE_PER_LIGHT_UNIT is PERCENTAGE_PER_LOOP
    without rounding error); the new level is the [float] sum
    10 + PERCENTAGE_PER_LOOP = 10625570 * 2^-20, between 10.13333 and
    10.13334; and the telemetry of the pass is 0, 100, that level, and 51,
    which is 530 * 100 / 1023 truncated. *)
Theorem one_pass_at_average_light (previous : bool) (button : Z) :
  let g := {| battery_charge_percentage := LOW_BATTERY_LIMIT;
              light_on := false;
              previous_button_state := previous |} in
  let g' := fst (cycle (reads 530 button) g) in
  let out := snd (cycle (reads 530 button) g) in
  PERCENTAGE_PER_LOOP =
    Float32.div
      (Float32.div (Float32.sub (Float32.of_int 90) (Float32.of_int 10))
         (Float32.of_int 30))
      (Float32.of_int 20)
  /\ Float32.mul (Float32.of_int 530) CHARGE_PER_LIGHT_UNIT
     = PERCENTAGE_PER_LOOP
  /\ battery_charge_percentage g'
     = Float32.add LOW_BATTERY_LIMIT PERCENTAGE_PER_LOOP
  /\ battery_charge_percentage g' = Float32.normal 10625570 (-20)
  /\ (exists level : Q,
        Float32.to_Q (battery_charge_percentage g') = Some level
        /\ (1013333 # 100000 < level)%Q /\ (level < 1013334 # 100000)%Q)
  /\ firstn 7 out =
     [ SerialPrintInt 0; SerialPrintStr ", "; SerialPrintInt 100;
       SerialPrintStr ", "; SerialPrintFloat (Float32.normal 10625570 (-20));
       SerialPrintStr ", "; SerialPrintlnLong 51 ]
  /\ rescaled_field out = Some 51.
Proof.
  cbv zeta.
  rewrite cycle_effects, cycle_battery.
  cbn [battery_charge_percentage].
  assert (Hlevel : charged LOW_BATTERY_LIMIT (rate_of (reads 530 button))
                   = Float32.normal 10625570 (-20))
    by (vm_compute; reflexivity).
  rewrite Hlevel.
  split; [vm_compute; reflexivity |].
  split; [vm_compute; reflexivity |].
  split; [vm_compute; reflexivity |].
  split; [reflexivity |].
  split.
  - eexists. split; [vm_compute; reflexivity |].
    split; vm_compute; reflexivity.
  - split; reflexivity.
Qed.

(** C3, as the claim words it, fails: the pass from the initial state that
    reads 530 does not end its telemetry line with 52. *)
Lemma telemetry_at_average_light_is_not_52 :
  ~ (exists level : float,
       firstn 7 (snd (cycle (reads 530 NOT_PRESSED) initial)) =
       [ SerialPrintInt 0; SerialPrintStr ", "; SerialPrintInt 100;
         SerialPrintStr ", "; SerialPrintFloat level;
         SerialPrintStr ", "; SerialPrintlnLong 52 ]).
Proof.
  intros [level Hline].
  apply (f_equal rescaled_field) in Hline.
  vm_compute in Hline. discriminate Hline.
Qed.

(** ** Rounding in binary32 addition

    [SFadd] aligns the two significands, adds them as integers and rounds
    the sum back to 24 bits by shifting right, keeping a round bit and a
    sticky bit.  The lemmas below follow that computation for two positive
    normal numbers whose sum has more than 24 bits. *)

Section Rounding.

Local Abbreviation fexp32 := (fexp Float32.prec Float32.emax).
Local Abbreviation shr_fexp32 := (shr_fexp Float32.prec Float32.emax).
Local Abbreviation round_aux32 :=
  (binary_round_aux Float32.prec Float32.emax false).
Local Abbreviation round32 := (binary_round Float32.prec Float32.emax false).

Lemma fexp_normal (x : Z) :
  -149 <= x - 24 -> fexp32 x = x - 24.
Proof.
  intros Hx. change (Z.max (x - 24) (-149) = x - 24). lia.
Qed.

Lemma digits2_pos_bounds (p : positive) :
  2 ^ (Zpos (digits2_pos p) - 1) <= Zpos p < 2 ^ Zpos (digits2_pos p).
Proof.
  induction p as [p IH | p IH |]; cbn [digits2_pos].
  - rewrite Pos2Z.inj_succ, Pos2Z.inj_xI.
    replace (Z.succ (Zpos (digits2_pos p)) - 1)
      with (Z.succ (Zpos (digits2_pos p) - 1)) by lia.
    rewrite !Z.pow_succ_r by lia.
    revert IH. generalize (2 ^ (Zpos (digits2_pos p) - 1)).
    generalize (2 ^ Zpos (digits2_pos p)). lia.
  - rewrite Pos2Z.inj_succ, (Pos2Z.inj_xO p).
    replace (Z.succ (Zpos (digits2_pos p)) - 1)
      with (Z.succ (Zpos (digits2_pos p) - 1)) by lia.
    rewrite !Z.pow_succ_r by lia.
    revert IH. generalize (2 ^ (Zpos (digits2_pos p) - 1)).
    generalize (2 ^ Zpos (digits2_pos p)). lia.
  - simpl. lia.
Qed.

Lemma digits2_pos_unique (p : positive) (k : Z) :
  2 ^ (k - 1) <= Zpos p < 2 ^ k -> Zpos (digits2_pos p) = k.
Proof.
  intros Hk. pose proof (digits2_pos_bounds p) as Hd.
  destruct (Z.lt_trichotomy (Zpos (digits2_pos p)) k) as [Hlt | [Heq | Hgt]].
  - pose proof (Z.pow_le_mono_r 2 (Zpos (digits2_pos p)) (k - 1)
                  ltac:(lia) ltac:(lia)). lia.
  - exact Heq.
  - pose proof (Z.pow_le_mono_r 2 k (Zpos (digits2_pos p) - 1)
                  ltac:(lia) ltac:(lia)). lia.
Qed.

Lemma iter_xO_pow (m p : positive) :
  Zpos (Pos.iter xO m p) = Zpos m * 2 ^ Zpos p.
Proof.
  induction p as [|p IH] using Pos.peano_ind.
  - simpl. lia.
  - rewrite Pos.iter_succ, (Pos2Z.inj_xO (Pos.iter xO m p)), IH, Pos2Z.inj_succ, Z.pow_succ_r by lia.
    lia.
Qed.

Lemma shr_1_shifted (M n : Z) (mrs : shr_record) :
  0 <= n -> shifted M n mrs -> shifted M (n + 1) (shr_1 mrs).
Proof.
  intros Hn (Hm & t & Ht & HM & Hs).
  destruct mrs as [m r s]. cbn [shr_m shr_r shr_s] in *.
  assert (Hpow : 2 ^ (n + 1) = 2 * 2 ^ n) by (rewrite Z.pow_add_r; lia).
  assert (Hpow2 : 2 ^ (n + 1 + 1) = 2 * 2 ^ (n + 1))
    by (rewrite (Z.pow_add_r 2 (n + 1) 1); lia).
  assert (Hpos : 0 < 2 ^ n) by (apply Z.pow_pos_nonneg; lia).
  assert (Hsticky : (r || s = false) <->
                    (if r then 2 ^ n else 0) + t = 0).
  { destruct Hs as [Hs1 Hs2].
    destruct r, s; cbn [orb]; split; intros H;
      first [discriminate H | reflexivity | lia
            | (rewrite Hs1 by reflexivity; lia)
            | (apply Hs2; lia) ]. }
  unfold shifted.
  destruct m as [| [p | p |] | p]; try lia; cbn [shr_1 shr_m shr_r shr_s].
  all: split; [lia |];
    exists ((if r then 2 ^ n else 0) + t);
    rewrite Hpow2, Hpow;
    (split; [destruct r; lia |]); (split; [| exact Hsticky]).
  - rewrite Hpow in HM. destruct r; lia.
  - rewrite (Pos2Z.inj_xI p) in HM. rewrite Hpow in HM. destruct r; lia.
  - rewrite (Pos2Z.inj_xO p) in HM. rewrite Hpow in HM. destruct r; lia.
  - rewrite Hpow in HM. destruct r; lia.
Qed.

Lemma iter_shr_1_shifted (p : positive) (M n : Z) (mrs : shr_record) :
  0 <= n -> shifted M n mrs ->
  shifted M (n + Zpos p) (SpecFloat.iter_pos shr_1 p mrs).
Proof.
  revert n mrs. induction p as [p IH | p IH |]; intros n mrs Hn Hs;
    cbn [SpecFloat.iter_pos].
  - replace (n + Zpos p~1) with (n + 1 + Zpos p + Zpos p) by lia.
    apply IH; [lia |]. apply IH; [lia |]. apply shr_1_shifted; assumption.
  - replace (n + Zpos p~0) with (n + Zpos p + Zpos p) by lia.
    apply IH; [lia |]. apply IH; assumption.
  - apply shr_1_shifted; assumption.
Qed.

Lemma shr_fexp_shift (m : positive) (E : Z) (sp : positive) :
  Zpos (digits2_pos m) = 24 + Zpos sp -> -149 <= E + Zpos sp ->
  shr_fexp32 (Zpos m) E loc_Exact =
  (SpecFloat.iter_pos shr_1 sp (Build_shr_record (Zpos m) false false),
   E + Zpos sp).
Proof.
  intros Hd HE. unfold shr_fexp. cbn [Zdigits2 shr_record_of_loc].
  rewrite fexp_normal by lia.
  replace (Zpos (digits2_pos m) + E - 24 - E) with (Zpos sp) by lia.
  reflexivity.
Qed.

Lemma shr_fexp_keep (m : positive) (E : Z) :
  Zpos (digits2_pos m) = 24 -> -149 <= E ->
  shr_fexp32 (Zpos m) E loc_Exact =
  (Build_shr_record (Zpos m) false false, E).
Proof.
  intros Hd HE. unfold shr_fexp. cbn [Zdigits2 shr_record_of_loc].
  rewrite fexp_normal by lia.
  replace (Zpos (digits2_pos m) + E - 24 - E) with 0 by lia.
  reflexivity.
Qed.

Lemma round_nearest_even_shifted (M s : Z) (mrs : shr_record) :
  0 <= s -> shifted M s mrs ->
  let n := round_nearest_even (shr_m mrs) (loc_of_shr_record mrs) in
  shr_m mrs <= n <= shr_m mrs + 1
  /\ - 2 ^ s <= 2 * M - 2 ^ (s + 1) * n <= 2 ^ s.
Proof.
  intros Hs0 (Hm & t & Ht & HM & Hs).
  destruct mrs as [q r st]. cbn [shr_m shr_r shr_s] in *.
  assert (Hpow : 2 ^ (s + 1) = 2 * 2 ^ s) by (rewrite Z.pow_add_r; lia).
  rewrite Hpow in *.
  assert (Hpos : 0 < 2 ^ s) by (apply Z.pow_pos_nonneg; lia).
  revert Ht HM Hpos. generalize (2 ^ s). intros U Ht HM Hpos.
  destruct r, st; cbn [loc_of_shr_record round_nearest_even].
  - split; lia.
  - assert (t = 0) by (apply Hs; reflexivity). subst t.
    destruct (Z.even q); split; lia.
  - split; lia.
  - split; lia.
Qed.

Lemma shifted_start (M : positive) :
  shifted (Zpos M) 0 (Build_shr_record (Zpos M) false false).
Proof.
  split; [cbn; lia |]. exists 0. cbn [shr_m shr_r shr_s].
  change (2 ^ (0 + 1)) with 2. change (2 ^ 0) with 1.
  repeat split; lia.
Qed.

Lemma shr_fexp_carry (E : Z) :
  -149 <= E ->
  shr_fexp32 (2 ^ 24) E loc_Exact =
  (Build_shr_record (2 ^ 23) false false, E + 1).
Proof.
  intros HE. unfold shr_fexp.
  change (Zdigits2 (2 ^ 24)) with 25.
  rewrite fexp_normal by lia.
  replace (25 + E - 24 - E) with 1 by lia.
  reflexivity.
Qed.

Lemma binary_round_aux_nearest (M : positive) (E : Z) (sp : positive) :
  Zpos (digits2_pos M) = 24 + Zpos sp ->
  -149 <= E + Zpos sp -> E + Zpos sp + 1 <= 104 ->
  exists n : Z,
    2 ^ 23 <= n <= 2 ^ 24
    /\ - 2 ^ Zpos sp <= 2 * Zpos M - 2 ^ (Zpos sp + 1) * n <= 2 ^ Zpos sp
    /\ round_aux32 (Zpos M) E loc_Exact
       = rounded E (Zpos sp) n.
Proof.
  intros Hd Hlo Hhi.
  pose proof (iter_shr_1_shifted sp (Zpos M) 0 _ ltac:(lia)
                (shifted_start M)) as Hsh.
  rewrite Z.add_0_l in Hsh.
  pose proof (round_nearest_even_shifted (Zpos M) (Zpos sp) _ ltac:(lia) Hsh) as Hn.
  cbv zeta in Hn.
  unfold binary_round_aux. rewrite (shr_fexp_shift M E sp Hd Hlo).
  cbv beta iota zeta.
  set (mrs := SpecFloat.iter_pos shr_1 sp _) in *.
  set (n := round_nearest_even (shr_m mrs) (loc_of_shr_record mrs)) in *.
  assert (Hq : 2 ^ 23 <= shr_m mrs < 2 ^ 24).
  { destruct Hsh as (Hm & t & Ht & HM & _).
    pose proof (digits2_pos_bounds M) as HD. rewrite Hd in HD.
    replace (24 + Zpos sp - 1) with (23 + Zpos sp) in HD by lia.
    rewrite !Z.pow_add_r in HD by lia.
    rewrite Z.pow_add_r in HM by lia. change (2 ^ 1) with 2 in HM.
    assert (Hpos : 0 < 2 ^ Zpos sp) by (apply Z.pow_pos_nonneg; lia).
    revert Ht HM HD Hpos. generalize (2 ^ Zpos sp). intros U Ht HM HD Hpos.
    change (2 ^ 23) with 8388608 in *. change (2 ^ 24) with 16777216 in *.
    destruct (shr_r mrs); nia. }
  exists n. split; [lia |]. split; [exact (proj2 Hn) |].
  unfold rounded. destruct (Z.eqb_spec n (2 ^ 24)) as [Heq | Hne].
  - rewrite Heq, shr_fexp_carry by lia. cbn [shr_m].
    change (2 ^ 23) with (Zpos (2 ^ 23)).
    change (Float32.emax - Float32.prec) with 104.
    rewrite (proj2 (Z.leb_le _ _)) by lia. reflexivity.
  - destruct n as [| np | np] eqn:En; try lia.
    assert (Hnp : Zpos (digits2_pos np) = 24)
      by (apply digits2_pos_unique; lia).
    rewrite (shr_fexp_keep np _ Hnp) by lia. cbn [shr_m].
    change (Float32.emax - Float32.prec) with 104.
    rewrite (proj2 (Z.leb_le _ _)) by lia. reflexivity.
Qed.

Lemma add_normal_align (m mx : positive) (e ex : Z) (dp : positive) :
  e - ex = Zpos dp ->
  Float32.add (Float32.normal m e) (Float32.normal mx ex) =
  round32 (Pos.iter xO m dp + mx) ex.
Proof.
  intros Hd.
  unfold Float32.add, Float32.normal, SFadd, cond_Zopp, shl_align.
  rewrite Z.min_r by lia.
  replace (ex - e) with (Zneg dp) by lia.
  rewrite Z.sub_diag. reflexivity.
Qed.

Lemma binary_round_aligned (X : positive) (E : Z) (sp : positive) :
  Zpos (digits2_pos X) = 24 + Zpos sp -> -149 <= E + Zpos sp ->
  round32 X E =
  round_aux32 (Zpos X) E loc_Exact.
Proof.
  intros Hd HE. unfold binary_round, shl_align.
  rewrite fexp_normal by lia.
  replace (Zpos (digits2_pos X) + E - 24 - E) with (Zpos sp) by lia.
  reflexivity.
Qed.

Lemma leb_normal (m m' : positive) (e e' : Z) :
  (e' = e /\ Zpos m <= Zpos m') \/ e' = e + 1 ->
  Float32.leb (Float32.normal m e) (Float32.normal m' e') = true.
Proof.
  unfold Float32.leb, Float32.normal, SFleb, SFcompare.
  intros [[-> Hm] | ->].
  - rewrite Z.compare_refl.
    change (Pos.compare_cont Eq m m') with (Pos.compare m m').
    destruct (Pos.compare_spec m m'); try reflexivity. lia.
  - replace (e ?= e + 1) with Lt; [reflexivity |].
    symmetry. apply Z.compare_lt_iff. lia.
Qed.

Lemma add_step (m mx : positive) (e ex : Z) :
  2 ^ 23 <= Zpos m < 2 ^ 24 -> -20 <= e <= 0 ->
  e < 0 \/ Zpos m = 2 ^ 23 ->
  2 ^ 23 <= Zpos mx < 2 ^ 24 -> -35 <= ex <= -25 ->
  exists (m' : positive) (e' : Z),
    Float32.add (Float32.normal m e) (Float32.normal mx ex) =
    Float32.normal m' e'
    /\ 2 ^ 23 <= Zpos m' < 2 ^ 24 /\ -20 <= e' <= 0
    /\ (e' < 0 \/ Zpos m' = 2 ^ 23)
    /\ ((e' = e /\ Zpos m <= Zpos m') \/ e' = e + 1).
Proof.
  intros Hm He He0 Hmx Hex.
  destruct (e - ex) as [| dp | dp] eqn:Hd; try lia.
  rewrite (add_normal_align m mx e ex dp Hd).
  set (X := (Pos.iter xO m dp + mx)%positive).
  assert (HX : Zpos X = Zpos m * 2 ^ Zpos dp + Zpos mx)
    by (unfold X; rewrite Pos2Z.inj_add, iter_xO_pow; reflexivity).
  assert (HU32 : 2 ^ 5 <= 2 ^ Zpos dp) by (apply Z.pow_le_mono_r; lia).
  assert (HU25 : 25 <= Zpos dp -> 2 ^ 25 <= 2 ^ Zpos dp)
    by (intros; apply Z.pow_le_mono_r; lia).
  assert (HU24 : 2 ^ Zpos dp < 2 ^ 24 -> Zpos dp < 24)
    by (intros; apply (Z.pow_lt_mono_r_iff 2); lia).
  destruct (Z.lt_ge_cases (Zpos X) (2 ^ (24 + Zpos dp))) as [Hlt | Hge].
  - (* the sum stays in the binade of the shifted battery level *)
    assert (HD : Zpos (digits2_pos X) = 24 + Zpos dp).
    { apply digits2_pos_unique. split; [| exact Hlt].
      replace (24 + Zpos dp - 1) with (23 + Zpos dp) by lia.
      rewrite HX, Z.pow_add_r by lia.
      revert HU32. generalize (2 ^ Zpos dp). intros U HU32.
      change (2 ^ 5) with 32 in HU32. nia. }
    rewrite (binary_round_aligned X ex dp HD) by lia.
    destruct (binary_round_aux_nearest X ex dp HD ltac:(lia) ltac:(lia))
      as (n & Hn & Hnear & ->).
    rewrite Z.pow_add_r in Hlt, Hnear by lia.
    rewrite HX in Hlt, Hnear.
    unfold rounded.
    numeral_powers.
    revert HU32 HU25 HU24 Hlt Hnear. generalize (2 ^ Zpos dp).
    intros U HU32 HU25 HU24 Hlt Hnear.
    destruct (Z.eqb_spec n 16777216) as [Hcarry | Hnocarry].
    + exists 8388608%positive, (ex + Zpos dp + 1). unfold Float32.normal.
      split; [reflexivity |].
      assert (e < 0) by nia.
      repeat split; try lia.
    + exists (Z.to_pos n), (ex + Zpos dp). unfold Float32.normal.
      split; [reflexivity |].
      rewrite Z2Pos.id by lia.
      assert (Zpos m <= n) by nia.
      assert (e < 0 \/ n = 8388608).
      { destruct (Z.eq_dec e 0) as [He' | He']; [right | left; lia].
        assert (33554432 <= U) by (apply HU25; lia). nia. }
      repeat split; try lia.
  - (* the sum carries into the next binade *)
    assert (HD : Zpos (digits2_pos X) = 24 + Zpos (dp + 1)).
    { apply digits2_pos_unique.
      replace (24 + Zpos (dp + 1) - 1) with (24 + Zpos dp) by lia.
      split; [lia |].
      replace (24 + Zpos (dp + 1)) with (25 + Zpos dp) by lia.
      rewrite HX, Z.pow_add_r by lia.
      revert HU32. generalize (2 ^ Zpos dp). intros U HU32.
      change (2 ^ 5) with 32 in HU32. nia. }
    rewrite (binary_round_aligned X ex (dp + 1) HD) by lia.
    assert (Hsmall : Zpos dp < 24).
    { apply HU24. rewrite HX, Z.pow_add_r in Hge by lia.
      revert Hge. generalize (2 ^ Zpos dp). intros U Hge.
      change (2 ^ 24) with 16777216 in *. nia. }
    destruct (binary_round_aux_nearest X ex (dp + 1) HD ltac:(lia) ltac:(lia))
      as (n & Hn & Hnear & ->).
    replace (Zpos (dp + 1) + 1) with (Zpos dp + 2) in Hnear by lia.
    replace (Zpos (dp + 1)) with (Zpos dp + 1) in Hnear by lia.
    rewrite !Z.pow_add_r in Hnear by lia.
    rewrite HX in Hnear.
    unfold rounded.
    numeral_powers.
    revert HU32 Hnear. generalize (2 ^ Zpos dp). intros U HU32 Hnear.
    destruct (Z.eqb_spec n 16777216) as [Hcarry | Hnocarry]; [nia |].
    exists (Z.to_pos n), (ex + Zpos (dp + 1)). unfold Float32.normal.
    split; [reflexivity |].
    rewrite Z2Pos.id by lia.
    repeat split; try lia.
Qed.

End Rounding.

(** ** The battery level never falls and never passes 2^23 *)

Lemma Zrange_In (lo r : Z) (n : nat) :
  lo <= r < lo + Z.of_nat n -> In r (Zrange lo n).
Proof.
  intros Hr. unfold Zrange. apply in_map_iff.
  exists (Z.to_nat (r - lo)). split; [lia |].
  apply in_seq. lia.
Qed.

Lemma charge_ok_in_range (r : Z) :
  in_range r ->
  charge_ok (Float32.mul (Float32.of_int r) CHARGE_PER_LIGHT_UNIT) = true.
Proof.
  intros Hr.
  assert (Hall : forallb
                   (fun r => charge_ok (Float32.mul (Float32.of_int r)
                                          CHARGE_PER_LIGHT_UNIT))
                   (Zrange 0 1024) = true)
    by (vm_compute; reflexivity).
  rewrite forallb_forall in Hall. apply Hall, Zrange_In.
  unfold in_range in Hr. lia.
Qed.

Lemma same_eq (x y : float) : Float32.same x y = true -> x = y.
Proof.
  destruct x as [s | s | | s m e], y as [s' | s' | | s' m' e'];
    cbn [Float32.same]; try discriminate; try reflexivity.
  - intros H. apply Bool.eqb_prop in H. congruence.
  - intros H. apply Bool.eqb_prop in H. congruence.
  - rewrite !andb_true_iff, Pos.eqb_eq, Z.eqb_eq.
    intros [[Hs Hm] He]. apply Bool.eqb_prop in Hs. congruence.
Qed.

Lemma absorbed_in_range (r : Z) :
  in_range r ->
  charged (Float32.of_int 8388608) r = Float32.of_int 8388608.
Proof.
  intros Hr.
  assert (Hall : forallb
                   (fun r => Float32.same
                               (charged (Float32.of_int 8388608) r)
                               (Float32.of_int 8388608))
                   (Zrange 0 1024) = true)
    by (vm_compute; reflexivity).
  rewrite forallb_forall in Hall.
  apply same_eq, Hall, Zrange_In.
  unfold in_range in Hr. lia.
Qed.

Lemma battery_ok_normal (b : float) :
  battery_ok b = true <->
  exists (m : positive) (e : Z),
    b = Float32.normal m e
    /\ 2 ^ 23 <= Zpos m < 2 ^ 24 /\ -20 <= e <= 0
    /\ (e < 0 \/ Zpos m = 2 ^ 23).
Proof.
  unfold battery_ok, Float32.normal. split.
  - destruct b as [| | | [|] m e]; try discriminate.
    rewrite !andb_true_iff, orb_true_iff.
    rewrite !Z.leb_le, !Z.ltb_lt, Z.eqb_eq.
    intros ((((H1 & H2) & H3) & H4) & H5).
    exists m, e. repeat split; assumption.
  - intros (m & e & -> & (H1 & H2) & (H3 & H4) & H5).
    rewrite !andb_true_iff, orb_true_iff.
    rewrite !Z.leb_le, !Z.ltb_lt, Z.eqb_eq.
    repeat split; assumption.
Qed.

Lemma charged_ok (b : float) (r : Z) :
  battery_ok b = true -> in_range r ->
  battery_ok (charged b r) = true
  /\ Float32.leb b (charged b r) = true.
Proof.
  intros Hb Hr. unfold charged.
  pose proof (charge_ok_in_range r Hr) as Hx.
  destruct (Float32.mul (Float32.of_int r) CHARGE_PER_LIGHT_UNIT)
    as [[|] | | | [|] mx ex]; try discriminate Hx.
  - (* a reading of zero adds +0 *)
    apply battery_ok_normal in Hb as Hb'.
    destruct Hb' as (m & e & -> & _).
    split; [exact Hb |].
    apply leb_normal. left. split; [reflexivity | lia].
  - apply battery_ok_normal in Hb.
    destruct Hb as (m & e & -> & Hm & He & He0).
    cbn [charge_ok] in Hx.
    rewrite !andb_true_iff, !Z.leb_le, !Z.ltb_lt in Hx.
    destruct Hx as (((Hx1 & Hx2) & Hx3) & Hx4).
    destruct (add_step m mx e ex Hm He He0 (conj Hx1 Hx2) (conj Hx3 Hx4))
      as (m' & e' & Hadd & Hm' & He' & He0' & Hle).
    change (S754_finite false mx ex) with (Float32.normal mx ex).
    rewrite Hadd. split.
    + apply battery_ok_normal. exists m', e'. repeat split; tauto || lia.
    + apply leb_normal, Hle.
Qed.

Lemma run_battery_ok (inputs : list Env) (g : Globals) :
  Forall (fun env => in_range (rate_of env)) inputs ->
  battery_ok (battery_charge_percentage g) = true ->
  battery_ok (battery_charge_percentage (fst (run inputs g))) = true.
Proof.
  intros Hall. revert g.
  induction Hall as [|env rest Hr _ IH]; intros g Hg; [exact Hg |].
  rewrite run_cons. cbn [fst]. apply IH.
  rewrite cycle_battery. apply charged_ok; assumption.
Qed.

Lemma battery_ok_bounded (b : float) :
  battery_ok b = true ->
  Float32.leb b (Float32.of_int 8388608) = true
  /\ Float32.ltb (Float32.of_int 8388608) b = false.
Proof.
  intros Hb. apply battery_ok_normal in Hb.
  destruct Hb as (m & e & -> & Hm & He & He0).
  change (Float32.of_int 8388608) with (Float32.normal 8388608 0).
  unfold Float32.leb, Float32.ltb, Float32.normal, SFleb, SFltb, SFcompare.
  destruct (Z.compare_spec e 0) as [-> | Hneg | Hpos]; try lia.
  - assert (m = 8388608%positive) as -> by (change (2 ^ 23) with 8388608 in *; lia).
    split; reflexivity.
  - rewrite (proj2 (Z.compare_gt_iff 0 e)) by lia. split; reflexivity.
Qed.

(** C9, as the sketch has it: on every pass with a reading in 0-1023 the
    battery level after the pass is at least the level before; nothing
    clamps it to 100, which 350 passes at reading 1023 exceed; but it
    never passes 2^23 = 8388608, where [float] addition absorbs every
    charge a reading in 0-1023 can add. *)
Theorem battery_never_falls_and_saturates
    (inputs : list Env) (env : Env)
    (Hhistory : Forall (fun env => in_range (rate_of env)) inputs)
    (Hreading : in_range (rate_of env)) :
  let g := fst (run inputs initial) in
  Float32.leb (battery_charge_percentage g)
    (battery_charge_percentage (fst (cycle env g))) = true
  /\ Float32.ltb (Float32.of_int 100)
       (battery_charge_percentage
          (fst (run (repeat (reads 1023 NOT_PRESSED) 350) initial))) = true
  /\ Float32.leb (battery_charge_percentage g) (Float32.of_int 8388608)
     = true
  /\ charged (Float32.of_int 8388608) (rate_of env)
     = Float32.of_int 8388608.
Proof.
  cbv zeta.
  assert (Hok : battery_ok
                  (battery_charge_percentage (fst (run inputs initial)))
                = true)
    by (apply run_battery_ok; [exact Hhistory | reflexivity]).
  split; [rewrite cycle_battery; apply charged_ok; assumption |].
  split; [vm_compute; reflexivity |].
  split; [apply battery_ok_bounded, Hok |].
  apply absorbed_in_range, Hreading.
Qed.

Lemma battery_never_falls_and_saturates_witness :
  Forall (fun env => in_range (rate_of env))
    [reads 1023 NOT_PRESSED; reads 0 PRESSED] /\
  in_range (rate_of (reads 530 NOT_PRESSED)) /\
  Float32.leb
    (battery_charge_percentage
       (fst (run [reads 1023 NOT_PRESSED; reads 0 PRESSED] initial)))
    (battery_charge_percentage
       (fst (cycle (reads 530 NOT_PRESSED)
               (fst (run [reads 1023 NOT_PRESSED; reads 0 PRESSED]
                       initial))))) = true.
Proof.
  assert (Hh : Forall (fun env => in_range (rate_of env))
                 [reads 1023 NOT_PRESSED; reads 0 PRESSED]).
  { forall_elements ltac:(unfold in_range, rate_of; simpl; lia). }
  assert (Hr : in_range (rate_of (reads 530 NOT_PRESSED)))
    by (unfold in_range, rate_of; simpl; lia).
  split; [exact Hh |]. split; [exact Hr |].
  exact (proj1 (battery_never_falls_and_saturates _ _ Hh Hr)).
Defined.

(** C9, as the claim words it, fails: no sequence of readings in 0-1023
    takes the battery level above the bound 2^23. *)
Lemma battery_cannot_exceed_every_bound :
  ~ (forall bound : float,
       exists inputs : list Env,
         Forall (fun env => in_range (rate_of env)) inputs
         /\ Float32.ltb bound
              (battery_charge_percentage (fst (run inputs initial)))
            = true).
Proof.
  intros Hunbounded.
  destruct (Hunbounded (Float32.of_int 8388608)) as (inputs & Hin & Hlt).
  assert (Hok : battery_ok
                  (battery_charge_percentage (fst (run inputs initial)))
                = true)
    by (apply run_battery_ok; [exact Hin | reflexivity]).
  apply battery_ok_bounded in Hok. destruct Hok as [_ Hnot].
  rewrite Hnot in Hlt. discriminate Hlt.
Qed.

(** * Further properties of the sketch *)

(** ** A dark sensor *)

(** X1: a pass that reads 0 from the sensor leaves the battery level as it
    is, whatever the button does (the level being any [float] but -0, to
    which adding the charge +0 gives +0). *)
Theorem zero_reading_keeps_level
    (env : Env) (g : Globals)
    (Hdark : rate_of env = 0)
    (Hlevel : battery_charge_percentage g <> S754_zero true) :
  battery_charge_percentage (fst (cycle env g)) = battery_charge_percentage g.
Proof.
  rewrite cycle_battery, Hdark. unfold charged.
  change (Float32.mul (Float32.of_int 0) CHARGE_PER_LIGHT_UNIT)
    with (S754_zero false).
  destruct (battery_charge_percentage g) as [[|] | [|] | | s m e];
    try reflexivity.
  contradiction Hlevel. reflexivity.
Qed.

Lemma zero_reading_keeps_level_witness :
  rate_of (reads 0 PRESSED) = 0 /\
  battery_charge_percentage initial <> S754_zero true /\
  battery_charge_percentage (fst (cycle (reads 0 PRESSED) initial)) =
  battery_charge_percentage initial.
Proof.
  assert (Hd : rate_of (reads 0 PRESSED) = 0) by reflexivity.
  assert (Hl : battery_charge_percentage initial <> S754_zero true)
    by (vm_compute; discriminate).
  split; [exact Hd |]. split; [exact Hl |].
  exact (zero_reading_keeps_level (reads 0 PRESSED) initial Hd Hl).
Defined.

(** ** Charging and the light do not see each other *)

(** X2: the battery level after a run depends on the level at the start
    and on the sensor readings only: not on the button, not on the light.
    Nothing in [loop()] stops or slows charging. *)
Theorem battery_ignores_button_and_light
    (inputs1 inputs2 : list Env) (g1 g2 : Globals)
    (Hrates : List.map rate_of inputs1 = List.map rate_of inputs2)
    (Hstart : battery_charge_percentage g1 = battery_charge_percentage g2) :
  battery_charge_percentage (fst (run inputs1 g1)) =
  battery_charge_percentage (fst (run inputs2 g2)).
Proof. rewrite !run_battery, Hrates, Hstart. reflexivity. Qed.

Lemma battery_ignores_button_and_light_witness :
  List.map rate_of [reads 530 PRESSED; reads 7 NOT_PRESSED] =
  List.map rate_of [reads 530 NOT_PRESSED; reads 7 NOT_PRESSED] /\
  battery_charge_percentage initial =
  battery_charge_percentage (set_light_on true initial) /\
  battery_charge_percentage
    (fst (run [reads 530 PRESSED; reads 7 NOT_PRESSED] initial)) =
  battery_charge_percentage
    (fst (run [reads 530 NOT_PRESSED; reads 7 NOT_PRESSED]
            (set_light_on true initial))).
Proof.
  split; [reflexivity |]. split; [reflexivity |].
  exact (battery_ignores_button_and_light
           [reads 530 PRESSED; reads 7 NOT_PRESSED]
           [reads 530 NOT_PRESSED; reads 7 NOT_PRESSED]
           initial (set_light_on true initial) eq_refl eq_refl).
Defined.

(** X3: the light, the stored button state and the writes to the pins
    after a run depend on the light and the stored button state at the
    start and on the button readings only: not on the sensor, not on the
    battery level.  No battery limit ever keeps the light off. *)
Theorem light_ignores_sensor_and_battery
    (inputs1 inputs2 : list Env) (g1 g2 : Globals)
    (Hbuttons : List.map button_of inputs1 = List.map button_of inputs2)
    (Hlight : light_on g1 = light_on g2)
    (Hprevious : previous_button_state g1 = previous_button_state g2) :
  light_on (fst (run inputs1 g1)) = light_on (fst (run inputs2 g2))
  /\ previous_button_state (fst (run inputs1 g1)) =
     previous_button_state (fst (run inputs2 g2))
  /\ pin_writes (snd (run inputs1 g1)) = pin_writes (snd (run inputs2 g2)).
Proof.
  revert inputs2 g1 g2 Hbuttons Hlight Hprevious.
  induction inputs1 as [|env1 rest1 IH];
    intros [|env2 rest2] g1 g2 Hbuttons Hlight Hprevious;
    try discriminate Hbuttons.
  - repeat split; assumption.
  - cbn [List.map] in Hbuttons. injection Hbuttons as Hb Hrest.
    rewrite !run_cons. cbn [fst snd]. rewrite !pin_writes_app.
    assert (Hl1 : light_on (fst (cycle env1 g1)) =
                  light_on (fst (cycle env2 g2)))
      by (rewrite !cycle_light_on, Hb, Hlight, Hprevious; reflexivity).
    assert (Hp1 : previous_button_state (fst (cycle env1 g1)) =
                  previous_button_state (fst (cycle env2 g2)))
      by (rewrite !cycle_previous, Hb, Hprevious; reflexivity).
    destruct (IH rest2 _ _ Hrest Hl1 Hp1) as (IHl & IHp & IHw).
    repeat split; [exact IHl | exact IHp |].
    rewrite IHw, !cycle_effects, !pin_writes_app, Hb, Hlight, Hprevious.
    reflexivity.
Qed.

Lemma light_ignores_sensor_and_battery_witness :
  List.map button_of [reads 0 PRESSED; reads 1023 NOT_PRESSED] =
  List.map button_of [reads 530 PRESSED; reads 530 NOT_PRESSED] /\
  light_on initial =
  light_on (set_battery_charge_percentage HIGH_BATTERY_LIMIT initial) /\
  previous_button_state initial =
  previous_button_state
    (set_battery_charge_percentage HIGH_BATTERY_LIMIT initial) /\
  light_on (fst (run [reads 0 PRESSED; reads 1023 NOT_PRESSED] initial)) =
  light_on
    (fst (run [reads 530 PRESSED; reads 530 NOT_PRESSED]
            (set_battery_charge_percentage HIGH_BATTERY_LIMIT initial))).
Proof.
  split; [reflexivity |]. split; [reflexivity |]. split; [reflexivity |].
  exact (proj1 (light_ignores_sensor_and_battery
                  [reads 0 PRESSED; reads 1023 NOT_PRESSED]
                  [reads 530 PRESSED; reads 530 NOT_PRESSED]
                  initial
                  (set_battery_charge_percentage HIGH_BATTERY_LIMIT initial)
                  eq_refl eq_refl eq_refl)).
Defined.

(** ** The light over a run *)

Lemma run_light_on_parity (inputs : list Env) (g : Globals) :
  light_on (fst (run inputs g)) =
  xorb (light_on g) (Nat.odd (count_true (toggle_trace inputs g))).
Proof.
  revert g. induction inputs as [|env rest IH]; intros g.
  - cbn. destruct (light_on g); reflexivity.
  - rewrite run_cons. cbn [fst toggle_trace]. rewrite IH.
    unfold count_true. cbn [List.filter].
    destruct (light_on g), (light_on (fst (cycle env g)));
      cbn [xorb length]; rewrite ?Nat.odd_succ, <- ?Nat.negb_odd;
      destruct (Nat.odd _); reflexivity.
Qed.

(** X4: after a run from the initial state the light is on exactly when
    the button readings held an odd number of press edges. *)
Theorem light_on_is_parity_of_presses
    (inputs : list Env)
    (Hlevels : Forall (fun env => is_level (digital_in env LIGHT_BUTTON))
                 inputs) :
  light_on (fst (run inputs initial)) =
  Nat.odd (count_true (press_edges NOT_PRESSED (List.map button_of inputs))).
Proof.
  rewrite run_light_on_parity, (toggle_trace_press_edges inputs initial Hlevels).
  reflexivity.
Qed.

Lemma light_on_is_parity_of_presses_witness :
  Forall (fun env => is_level (digital_in env LIGHT_BUTTON))
    [reads 530 PRESSED; reads 530 NOT_PRESSED; reads 530 PRESSED] /\
  light_on
    (fst (run [reads 530 PRESSED; reads 530 NOT_PRESSED; reads 530 PRESSED]
            initial)) =
  Nat.odd
    (count_true
       (press_edges NOT_PRESSED
          (List.map button_of
             [reads 530 PRESSED; reads 530 NOT_PRESSED; reads 530 PRESSED]))).
Proof.
  assert (Hl : Forall (fun env => is_level (digital_in env LIGHT_BUTTON))
                 [reads 530 PRESSED; reads 530 NOT_PRESSED;
                  reads 530 PRESSED]).
  { forall_elements ltac:(first [left; reflexivity | right; reflexivity]). }
  split; [exact Hl |].
  exact (light_on_is_parity_of_presses _ Hl).
Defined.

Lemma run_pin_writes_alternating (inputs : list Env) (g : Globals) :
  pin_writes (snd (run inputs g)) =
  alternating (light_on g) (count_true (toggle_trace inputs g)).
Proof.
  revert g. induction inputs as [|env rest IH]; intros g; [reflexivity |].
  rewrite run_cons. cbn [snd toggle_trace].
  rewrite pin_writes_app, IH, cycle_effects, cycle_light_on.
  unfold count_true. cbn [List.filter].
  destruct (toggles _ _), (light_on g); reflexivity.
Qed.

(** X5: whatever the pins read, the writes of a run all go to the LIGHT
    pin and their levels alternate, the first one switching the light
    from the state it had at the start; there is one write per pass that
    changed [light_on]. *)
Theorem pin_writes_alternate (inputs : list Env) (g : Globals) :
  pin_writes (snd (run inputs g)) =
  alternating (light_on g) (count_true (toggle_trace inputs g))
  /\ Forall (fun write => fst write = LIGHT) (pin_writes (snd (run inputs g))).
Proof.
  split; [apply run_pin_writes_alternating |].
  rewrite run_pin_writes_alternating.
  generalize (light_on g) (count_true (toggle_trace inputs g)).
  intros lit k. revert lit.
  induction k as [|k IH]; intros lit; [apply List.Forall_nil |].
  apply List.Forall_cons; [reflexivity | apply IH].
Qed.

(** ** Telemetry and pacing over a run *)

Lemma reported_levels_app (out1 out2 : list Effect) :
  reported_levels (out1 ++ out2) = reported_levels out1 ++ reported_levels out2.
Proof. unfold reported_levels. apply flat_map_app. Qed.

Lemma lines_printed_app (out1 out2 : list Effect) :
  lines_printed (out1 ++ out2) = (lines_printed out1 + lines_printed out2)%nat.
Proof. unfold lines_printed. rewrite List.filter_app, length_app. reflexivity. Qed.

Lemma total_delay_app (out1 out2 : list Effect) :
  total_delay (out1 ++ out2) = total_delay out1 + total_delay out2.
Proof.
  unfold total_delay. induction out1 as [|e out1 IH]; [reflexivity |].
  cbn [app fold_right]. rewrite IH. destruct e; lia.
Qed.

Lemma last_cons_default {A : Type} (x d : A) (l : list A) :
  List.last (x :: l) d = List.last l x.
Proof.
  revert x d. induction l as [|y l IH]; intros x d; [reflexivity |].
  change (List.last (x :: y :: l) d) with (List.last (y :: l) d).
  rewrite !IH. reflexivity.
Qed.

Lemma levels_from_last (b : float) (rates : list Z) :
  List.last (levels_from b rates) b =
  fold_left Float32.add
    (List.map (fun r => Float32.mul (Float32.of_int r) CHARGE_PER_LIGHT_UNIT)
       rates) b.
Proof.
  revert b. induction rates as [|r rest IH]; intros b; [reflexivity |].
  cbn [levels_from List.map fold_left].
  rewrite last_cons_default. apply IH.
Qed.

(** X6: a run of n passes prints n lines, and the level on line k is the
    battery level after pass k: the value already raised by the reading of
    that pass, so that the last line carries the level the run ends with. *)
Theorem telemetry_reports_each_level (inputs : list Env) (g : Globals) :
  lines_printed (snd (run inputs g)) = length inputs
  /\ reported_levels (snd (run inputs g)) =
     levels_from (battery_charge_percentage g) (List.map rate_of inputs)
  /\ List.last (reported_levels (snd (run inputs g)))
       (battery_charge_percentage g)
     = battery_charge_percentage (fst (run inputs g)).
Proof.
  assert (Hlevels : forall g,
             reported_levels (snd (run inputs g)) =
             levels_from (battery_charge_percentage g)
               (List.map rate_of inputs)).
  { induction inputs as [|env rest IH]; intros g0; [reflexivity |].
    rewrite run_cons. cbn [snd List.map levels_from].
    rewrite reported_levels_app, IH, cycle_battery, cycle_effects.
    destruct (toggles _ _); reflexivity. }
  split; [| split].
  - clear Hlevels. revert g.
    induction inputs as [|env rest IH]; intros g; [reflexivity |].
    rewrite run_cons. cbn [snd length].
    rewrite lines_printed_app, IH, cycle_effects.
    destruct (toggles _ _); reflexivity.
  - apply Hlevels.
  - rewrite Hlevels, levels_from_last, run_battery. reflexivity.
Qed.

(** X7: every pass waits 50 ms, so a run spends 50 ms per pass in [delay],
    and LOOPS_PER_SECOND passes spend one second there: in milliseconds,
    delay * LOOPS_PER_SECOND = 1000 * passes. *)
Theorem run_pacing (inputs : list Env) (g : Globals) :
  total_delay (snd (run inputs g)) = 50 * Z.of_nat (length inputs)
  /\ total_delay (snd (run inputs g)) * LOOPS_PER_SECOND =
     1000 * Z.of_nat (length inputs).
Proof.
  assert (Hdelay : total_delay (snd (run inputs g)) =
                   50 * Z.of_nat (length inputs)).
  { revert g. induction inputs as [|env rest IH]; intros g; [reflexivity |].
    rewrite run_cons. cbn [snd length].
    rewrite total_delay_app, IH, cycle_effects.
    destruct (toggles _ _); cbn [telemetry app total_delay fold_right]; lia. }
  split; [exact Hdelay |].
  rewrite Hdelay. unfold LOOPS_PER_SECOND. lia.
Qed.

(** ** Order of normal numbers, and when a charge is not absorbed *)

Lemma leb_normal_iff (m m' : positive) (e e' : Z) :
  Float32.leb (Float32.normal m e) (Float32.normal m' e') = true <->
  e < e' \/ (e = e' /\ Zpos m <= Zpos m').
Proof.
  unfold Float32.leb, Float32.normal, SFleb, SFcompare.
  change (Pos.compare_cont Eq m m') with (Pos.compare m m').
  destruct (Z.compare_spec e e') as [-> | Hlt | Hgt].
  - destruct (Pos.compare_spec m m') as [-> | Hm | Hm]; split;
      intros H; first [reflexivity | discriminate H | lia].
  - split; [intros _; left; exact Hlt | reflexivity].
  - split; [discriminate | lia].
Qed.

Lemma ltb_normal_iff (m m' : positive) (e e' : Z) :
  Float32.ltb (Float32.normal m e) (Float32.normal m' e') = true <->
  e < e' \/ (e = e' /\ Zpos m < Zpos m').
Proof.
  unfold Float32.ltb, Float32.normal, SFltb, SFcompare.
  change (Pos.compare_cont Eq m m') with (Pos.compare m m').
  destruct (Z.compare_spec e e') as [-> | Hlt | Hgt].
  - destruct (Pos.compare_spec m m') as [-> | Hm | Hm]; split;
      intros H; first [reflexivity | discriminate H | lia].
  - split; [intros _; left; exact Hlt | reflexivity].
  - split; [discriminate | lia].
Qed.

Lemma leb_ok_trans (a b c : float) :
  battery_ok a = true -> battery_ok b = true -> battery_ok c = true ->
  Float32.leb a b = true -> Float32.leb b c = true ->
  Float32.leb a c = true.
Proof.
  intros Ha Hb Hc.
  apply battery_ok_normal in Ha, Hb, Hc.
  destruct Ha as (ma & ea & -> & _), Hb as (mb & eb & -> & _),
           Hc as (mc & ec & -> & _).
  rewrite !leb_normal_iff. lia.
Qed.

Lemma leb_ok_refl (a : float) :
  battery_ok a = true -> Float32.leb a a = true.
Proof.
  intros Ha. apply battery_ok_normal in Ha.
  destruct Ha as (m & e & -> & _). apply leb_normal_iff. lia.
Qed.

Lemma leb_ok_false (a b : float) :
  battery_ok a = true -> battery_ok b = true ->
  Float32.ltb a b = true -> Float32.leb b a = false.
Proof.
  intros Ha Hb Hlt.
  apply battery_ok_normal in Ha, Hb.
  destruct Ha as (ma & ea & -> & _), Hb as (mb & eb & -> & _).
  apply ltb_normal_iff in Hlt.
  destruct (Float32.leb (Float32.normal mb eb) (Float32.normal ma ea))
    eqn:Hle; [| reflexivity].
  apply leb_normal_iff in Hle. lia.
Qed.

Lemma run_battery_grows (inputs : list Env) (g : Globals) :
  Forall (fun env => in_range (rate_of env)) inputs ->
  battery_ok (battery_charge_percentage g) = true ->
  Float32.leb (battery_charge_percentage g)
    (battery_charge_percentage (fst (run inputs g))) = true.
Proof.
  intros Hall. revert g.
  induction Hall as [|env rest Hr Hrest IH]; intros g Hg.
  - apply leb_ok_refl, Hg.
  - rewrite run_cons. cbn [fst].
    destruct (charged_ok _ _ Hg Hr) as [Hok Hle].
    rewrite <- cycle_battery in Hok, Hle.
    apply (leb_ok_trans _ _ _ Hg Hok).
    + apply run_battery_ok; assumption.
    + exact Hle.
    + apply IH, Hok.
Qed.

Lemma battery_ok_classify (b : float) :
  battery_ok b = true ->
  SFclassify Float32.prec b = FloatClass.PNormal.
Proof.
  intros Hb. apply battery_ok_normal in Hb.
  destruct Hb as (m & e & -> & Hm & _).
  unfold Float32.normal, SFclassify.
  rewrite (digits2_pos_unique m 24) by (change (24 - 1) with 23; lia).
  reflexivity.
Qed.

(** X8: in every run with readings in 0-1023 the battery level is a
    normal [float] (never NaN, infinite, zero or subnormal), it is at least
    LOW_BATTERY_LIMIT, and running on never lowers it: the level after a
    run is at most the level after any longer run. *)
Theorem level_is_normal_and_grows
    (inputs more : list Env)
    (Hinputs : Forall (fun env => in_range (rate_of env)) inputs)
    (Hmore : Forall (fun env => in_range (rate_of env)) more) :
  SFclassify Float32.prec
    (battery_charge_percentage (fst (run inputs initial)))
  = FloatClass.PNormal
  /\ Float32.leb LOW_BATTERY_LIMIT
       (battery_charge_percentage (fst (run inputs initial))) = true
  /\ Float32.leb
       (battery_charge_percentage (fst (run inputs initial)))
       (battery_charge_percentage (fst (run (inputs ++ more) initial)))
     = true.
Proof.
  assert (Hok : battery_ok
                  (battery_charge_percentage (fst (run inputs initial)))
                = true)
    by (apply run_battery_ok; [exact Hinputs | reflexivity]).
  split; [apply battery_ok_classify, Hok |].
  split.
  - apply (run_battery_grows inputs initial Hinputs). reflexivity.
  - rewrite run_app. cbn [fst]. apply run_battery_grows; assumption.
Qed.

Lemma level_is_normal_and_grows_witness :
  Forall (fun env => in_range (rate_of env))
    [reads 1023 NOT_PRESSED; reads 0 PRESSED] /\
  Forall (fun env => in_range (rate_of env)) [reads 530 NOT_PRESSED] /\
  Float32.leb
    (battery_charge_percentage
       (fst (run [reads 1023 NOT_PRESSED; reads 0 PRESSED] initial)))
    (battery_charge_percentage
       (fst (run ([reads 1023 NOT_PRESSED; reads 0 PRESSED]
                  ++ [reads 530 NOT_PRESSED]) initial)))
  = true.
Proof.
  assert (H1 : Forall (fun env => in_range (rate_of env))
                 [reads 1023 NOT_PRESSED; reads 0 PRESSED]).
  { forall_elements ltac:(unfold in_range, rate_of; simpl; lia). }
  assert (H2 : Forall (fun env => in_range (rate_of env))
                 [reads 530 NOT_PRESSED]).
  { forall_elements ltac:(unfold in_range, rate_of; simpl; lia). }
  split; [exact H1 |]. split; [exact H2 |].
  exact (proj2 (proj2 (level_is_normal_and_grows _ _ H1 H2))).
Defined.

(** A charge of at least one unit in the last place of the level raises
    it: with the exponents at most 23 apart the sum rounds above [m]. *)
Lemma add_step_strict (m mx : positive) (e ex : Z) :
  2 ^ 23 <= Zpos m < 2 ^ 24 -> -20 <= e <= 0 ->
  2 ^ 23 <= Zpos mx < 2 ^ 24 -> -35 <= ex <= -25 ->
  e - ex <= 23 ->
  exists (m' : positive) (e' : Z),
    Float32.add (Float32.normal m e) (Float32.normal mx ex) =
    Float32.normal m' e'
    /\ ((e' = e /\ Zpos m < Zpos m') \/ e' = e + 1).
Proof.
  intros Hm He Hmx Hex Hclose.
  destruct (e - ex) as [| dp | dp] eqn:Hd; try lia.
  rewrite (add_normal_align m mx e ex dp Hd).
  set (X := (Pos.iter xO m dp + mx)%positive).
  assert (HX : Zpos X = Zpos m * 2 ^ Zpos dp + Zpos mx)
    by (unfold X; rewrite Pos2Z.inj_add, iter_xO_pow; reflexivity).
  assert (HU32 : 2 ^ 5 <= 2 ^ Zpos dp) by (apply Z.pow_le_mono_r; lia).
  assert (HU23 : 2 ^ Zpos dp <= 2 ^ 23) by (apply Z.pow_le_mono_r; lia).
  destruct (Z.lt_ge_cases (Zpos X) (2 ^ (24 + Zpos dp))) as [Hlt | Hge].
  - assert (HD : Zpos (digits2_pos X) = 24 + Zpos dp).
    { apply digits2_pos_unique. split; [| exact Hlt].
      replace (24 + Zpos dp - 1) with (23 + Zpos dp) by lia.
      rewrite HX, Z.pow_add_r by lia.
      revert HU32. generalize (2 ^ Zpos dp). intros U HU32.
      numeral_powers. nia. }
    rewrite (binary_round_aligned X ex dp HD) by lia.
    destruct (binary_round_aux_nearest X ex dp HD ltac:(lia) ltac:(lia))
      as (n & Hn & Hnear & ->).
    rewrite Z.pow_add_r in Hlt, Hnear by lia.
    rewrite HX in Hlt, Hnear.
    unfold rounded. numeral_powers.
    revert HU32 HU23 Hlt Hnear. generalize (2 ^ Zpos dp).
    intros U HU32 HU23 Hlt Hnear.
    destruct (Z.eqb_spec n 16777216) as [Hcarry | Hnocarry].
    + exists 8388608%positive, (ex + Zpos dp + 1). unfold Float32.normal.
      split; [reflexivity | right; lia].
    + exists (Z.to_pos n), (ex + Zpos dp). unfold Float32.normal.
      split; [reflexivity |].
      rewrite Z2Pos.id by lia.
      left. split; [lia | nia].
  - assert (HD : Zpos (digits2_pos X) = 24 + Zpos (dp + 1)).
    { apply digits2_pos_unique.
      replace (24 + Zpos (dp + 1) - 1) with (24 + Zpos dp) by lia.
      split; [lia |].
      replace (24 + Zpos (dp + 1)) with (25 + Zpos dp) by lia.
      rewrite HX, Z.pow_add_r by lia.
      revert HU32. generalize (2 ^ Zpos dp). intros U HU32.
      numeral_powers. nia. }
    rewrite (binary_round_aligned X ex (dp + 1) HD) by lia.
    destruct (binary_round_aux_nearest X ex (dp + 1) HD ltac:(lia) ltac:(lia))
      as (n & Hn & Hnear & ->).
    replace (Zpos (dp + 1) + 1) with (Zpos dp + 2) in Hnear by lia.
    replace (Zpos (dp + 1)) with (Zpos dp + 1) in Hnear by lia.
    rewrite !Z.pow_add_r in Hnear by lia.
    rewrite HX in Hnear.
    unfold rounded. numeral_powers.
    revert HU32 Hnear. generalize (2 ^ Zpos dp). intros U HU32 Hnear.
    destruct (Z.eqb_spec n 16777216) as [Hcarry | Hnocarry]; [nia |].
    exists (Z.to_pos n), (ex + Zpos (dp + 1)). unfold Float32.normal.
    split; [reflexivity | right; lia].
Qed.

Lemma charge_positive_in_range (r : Z) :
  1 <= r <= 1023 ->
  exists (mx : positive) (ex : Z),
    Float32.mul (Float32.of_int r) CHARGE_PER_LIGHT_UNIT = Float32.normal mx ex
    /\ 2 ^ 23 <= Zpos mx < 2 ^ 24 /\ -35 <= ex <= -25.
Proof.
  intros Hr.
  assert (Hall : forallb
                   (fun r => match Float32.mul (Float32.of_int r)
                                     CHARGE_PER_LIGHT_UNIT with
                             | S754_finite false _ _ => true
                             | _ => false
                             end)
                   (Zrange 1 1023) = true)
    by (vm_compute; reflexivity).
  rewrite forallb_forall in Hall.
  specialize (Hall r (Zrange_In 1 r 1023 ltac:(lia))).
  pose proof (charge_ok_in_range r ltac:(unfold in_range; lia)) as Hok.
  destruct (Float32.mul (Float32.of_int r) CHARGE_PER_LIGHT_UNIT)
    as [| | | [|] mx ex]; try discriminate Hall.
  cbn [charge_ok] in Hok.
  rewrite !andb_true_iff, !Z.leb_le, !Z.ltb_lt in Hok.
  exists mx, ex. split; [reflexivity | lia].
Qed.

(** X9: while the battery level is below 4096, which covers the nominal
    range, a pass with a nonzero reading (1-1023) strictly raises it: no
    charge is absorbed by rounding there. *)
Theorem nonzero_reading_raises_level
    (inputs : list Env) (env : Env)
    (Hhistory : Forall (fun env => in_range (rate_of env)) inputs)
    (Hreading : 1 <= rate_of env <= 1023)
    (Hbelow : Float32.ltb
                (battery_charge_percentage (fst (run inputs initial)))
                (Float32.of_int 4096) = true) :
  Float32.ltb
    (battery_charge_percentage (fst (run inputs initial)))
    (battery_charge_percentage
       (fst (cycle env (fst (run inputs initial))))) = true.
Proof.
  assert (Hok : battery_ok
                  (battery_charge_percentage (fst (run inputs initial)))
                = true)
    by (apply run_battery_ok; [exact Hhistory | reflexivity]).
  rewrite cycle_battery. unfold charged.
  apply battery_ok_normal in Hok.
  destruct Hok as (m & e & Hb & Hm & He & _).
  rewrite Hb in *.
  change (Float32.of_int 4096) with (Float32.normal 8388608 (-11)) in Hbelow.
  apply ltb_normal_iff in Hbelow.
  destruct (charge_positive_in_range _ Hreading) as (mx & ex & -> & Hmx & Hex).
  destruct (add_step_strict m mx e ex Hm He Hmx Hex)
    as (m' & e' & -> & Hup).
  - numeral_powers. lia.
  - apply ltb_normal_iff. lia.
Qed.

Lemma nonzero_reading_raises_level_witness :
  Forall (fun env => in_range (rate_of env)) [reads 1023 NOT_PRESSED] /\
  1 <= rate_of (reads 1 PRESSED) <= 1023 /\
  Float32.ltb
    (battery_charge_percentage
       (fst (run [reads 1023 NOT_PRESSED] initial)))
    (Float32.of_int 4096) = true /\
  Float32.ltb
    (battery_charge_percentage
       (fst (run [reads 1023 NOT_PRESSED] initial)))
    (battery_charge_percentage
       (fst (cycle (reads 1 PRESSED)
               (fst (run [reads 1023 NOT_PRESSED] initial))))) = true.
Proof.
  assert (Hh : Forall (fun env => in_range (rate_of env))
                 [reads 1023 NOT_PRESSED]).
  { forall_elements ltac:(unfold in_range, rate_of; simpl; lia). }
  assert (Hr : 1 <= rate_of (reads 1 PRESSED) <= 1023)
    by (unfold rate_of; simpl; lia).
  assert (Hb : Float32.ltb
                 (battery_charge_percentage
                    (fst (run [reads 1023 NOT_PRESSED] initial)))
                 (Float32.of_int 4096) = true)
    by (vm_compute; reflexivity).
  split; [exact Hh |]. split; [exact Hr |]. split; [exact Hb |].
  exact (nonzero_reading_raises_level _ _ Hh Hr Hb).
Defined.

(** ** Charging at the average light *)

Lemma leb_ltb_ok_trans (a b c : float) :
  battery_ok a = true -> battery_ok b = true -> battery_ok c = true ->
  Float32.leb a b = true -> Float32.ltb b c = true ->
  Float32.ltb a c = true.
Proof.
  intros Ha Hb Hc.
  apply battery_ok_normal in Ha, Hb, Hc.
  destruct Ha as (ma & ea & -> & _), Hb as (mb & eb & -> & _),
           Hc as (mc & ec & -> & _).
  rewrite leb_normal_iff, !ltb_normal_iff. lia.
Qed.

Lemma all_in_range_repeat (rate button : Z) (k : nat) :
  in_range rate ->
  Forall (fun env => in_range (rate_of env)) (repeat (reads rate button) k).
Proof.
  intros Hr. induction k as [|k IH]; [apply List.Forall_nil |].
  apply List.Forall_cons; [exact Hr | exact IH].
Qed.

Lemma rates_repeat (inputs : list Env) (rate : Z) :
  Forall (fun env => rate_of env = rate) inputs ->
  List.map rate_of inputs =
  List.map rate_of (repeat (reads rate NOT_PRESSED) (length inputs)).
Proof.
  induction 1 as [|env rest Hr _ IH]; [reflexivity |].
  cbn [List.map length repeat]. rewrite IH, Hr. reflexivity.
Qed.

Lemma run_battery_same_rates (inputs1 inputs2 : list Env) (g : Globals) :
  List.map rate_of inputs1 = List.map rate_of inputs2 ->
  battery_charge_percentage (fst (run inputs1 g)) =
  battery_charge_percentage (fst (run inputs2 g)).
Proof. intros Hrates. rewrite !run_battery, Hrates. reflexivity. Qed.

(** X10: at the average light the battery fills on time.  When every pass
    reads AVERAGE_CHARGE_LEVEL, whatever the button does, the level has
    reached HIGH_BATTERY_LIMIT exactly from pass SECONDS_TO_FULL *
    LOOPS_PER_SECOND = 600 on: not after 599 passes, and after every count
    of passes from 600 up. *)
Theorem average_light_fills_on_time
    (inputs : list Env)
    (Haverage : Forall (fun env => rate_of env = AVERAGE_CHARGE_LEVEL)
                  inputs) :
  Float32.leb HIGH_BATTERY_LIMIT
    (battery_charge_percentage (fst (run inputs initial)))
  = (Z.to_nat (SECONDS_TO_FULL * LOOPS_PER_SECOND) <=? length inputs)%nat.
Proof.
  rewrite (run_battery_same_rates inputs
             (repeat (reads AVERAGE_CHARGE_LEVEL NOT_PRESSED) (length inputs))
             initial (rates_repeat _ _ Haverage)).
  change (Z.to_nat (SECONDS_TO_FULL * LOOPS_PER_SECOND)) with 600%nat.
  set (average := reads AVERAGE_CHARGE_LEVEL NOT_PRESSED).
  assert (Hrange : forall k,
             Forall (fun env => in_range (rate_of env)) (repeat average k))
    by (intros k; apply all_in_range_repeat; unfold in_range,
          AVERAGE_CHARGE_LEVEL; lia).
  assert (Hok : forall k,
             battery_ok
               (battery_charge_percentage (fst (run (repeat average k) initial)))
             = true)
    by (intros k; apply run_battery_ok; [apply Hrange | reflexivity]).
  assert (Hhigh : battery_ok HIGH_BATTERY_LIMIT = true) by reflexivity.
  destruct (Nat.leb_spec 600 (length inputs)) as [Hfull | Hshort].
  - replace (length inputs) with (600 + (length inputs - 600))%nat by lia.
    rewrite repeat_app.
    apply (leb_ok_trans _ _ _ Hhigh (Hok 600%nat)).
    + rewrite <- repeat_app. apply Hok.
    + vm_compute; reflexivity.
    + rewrite run_app. cbn [fst].
      apply run_battery_grows; [apply Hrange | apply Hok].
  - apply leb_ok_false; [apply Hok | exact Hhigh |].
    apply (leb_ltb_ok_trans _ _ _ (Hok (length inputs)) (Hok 599%nat) Hhigh).
    + replace 599%nat with (length inputs + (599 - length inputs))%nat by lia.
      rewrite repeat_app, run_app. cbn [fst].
      apply run_battery_grows; [apply Hrange | apply Hok].
    + vm_compute; reflexivity.
Qed.

Lemma average_light_fills_on_time_witness :
  Forall (fun env => rate_of env = AVERAGE_CHARGE_LEVEL)
    [reads 530 PRESSED; reads 530 NOT_PRESSED] /\
  Float32.leb HIGH_BATTERY_LIMIT
    (battery_charge_percentage
       (fst (run [reads 530 PRESSED; reads 530 NOT_PRESSED] initial)))
  = (Z.to_nat (SECONDS_TO_FULL * LOOPS_PER_SECOND)
     <=? length [reads 530 PRESSED; reads 530 NOT_PRESSED])%nat.
Proof.
  assert (Ha : Forall (fun env => rate_of env = AVERAGE_CHARGE_LEVEL)
                 [reads 530 PRESSED; reads 530 NOT_PRESSED]).
  { forall_elements ltac:(reflexivity). }
  split; [exact Ha |].
  exact (average_light_fills_on_time _ Ha).
Defined.

(** ** [setup()]: the wait and the pin modes *)

Lemma wait_for_serial_spec (ready : nat -> bool) (fuel poll n : nat) :
  wait_for_serial ready poll fuel = Some n <->
  (poll <= n < poll + fuel)%nat /\ ready n = true
  /\ (forall k, (poll <= k < n)%nat -> ready k = false).
Proof.
  revert poll. induction fuel as [|fuel IH]; intros poll;
    cbn [wait_for_serial].
  - split; [discriminate | lia].
  - destruct (ready poll) eqn:Hpoll.
    + split.
      * intros [= <-]. repeat split; [lia | lia | exact Hpoll |].
        intros k Hk. lia.
      * intros (Hn & Hready & Hbefore). f_equal.
        destruct (Nat.eq_dec poll n) as [He | Hne]; [exact He |].
        specialize (Hbefore poll ltac:(lia)). congruence.
    + rewrite IH. split.
      * intros (Hn & Hready & Hbefore). repeat split; [lia | lia | exact Hready |].
        intros k Hk. destruct (Nat.eq_dec k poll) as [-> | Hne];
          [exact Hpoll | apply Hbefore; lia].
      * intros (Hn & Hready & Hbefore).
        assert (poll <> n) by congruence.
        repeat split; [lia | lia | exact Hready |].
        intros k Hk. apply Hbefore. lia.
Qed.

(** X11: [setup()] returns exactly when the serial port becomes ready: it
    returns after finding the port not ready n times if and only if the
    port is ready at evaluation n and at none before (within the fuel of
    the model); it then has opened the port at 9600 baud and set the three
    pin modes, and a port that never becomes ready keeps it waiting. *)
Theorem setup_returns_when_serial_ready
    (ready : nat -> bool) (fuel n : nat) (effects : list SetupEffect) :
  setup ready fuel = Some (effects, n) <->
  effects = [ SerialBegin 9600; PinMode LIGHT OUTPUT;
              PinMode LIGHT_BUTTON INPUT_PULLUP;
              PinMode CHARGING_RATE INPUT ]
  /\ (n < fuel)%nat /\ ready n = true
  /\ (forall k, (k < n)%nat -> ready k = false).
Proof.
  unfold setup.
  destruct (wait_for_serial ready 0 fuel) as [polls |] eqn:Hwait.
  - apply wait_for_serial_spec in Hwait.
    destruct Hwait as (Hn & Hready & Hbefore). split.
    + intros [= <- <-]. repeat split; [lia | exact Hready |].
      intros k Hk. apply Hbefore. lia.
    + intros (-> & Hfuel & Hrn & Hbn). do 2 f_equal.
      destruct (Nat.lt_trichotomy polls n) as [Hlt | [Heq | Hgt]];
        [| exact Heq |].
      * specialize (Hbn polls Hlt). congruence.
      * specialize (Hbefore n ltac:(lia)). congruence.
  - split; [discriminate |].
    intros (_ & Hfuel & Hrn & Hbn).
    assert (Hsome : wait_for_serial ready 0 fuel = Some n).
    { apply wait_for_serial_spec. repeat split; [lia | lia | exact Hrn |].
      intros k Hk. apply Hbn. lia. }
    congruence.
Qed.

(** X12: once [setup()] has returned, the pins have the modes [loop()]
    relies on: LIGHT is an output, the button pin an input with pull-up,
    the sensor pin an input; and every pin a run of [loop()] writes is one
    that [setup()] made an output. *)
Theorem setup_configures_the_pins_of_loop
    (ready : nat -> bool) (fuel polls : nat) (effects : list SetupEffect)
    (inputs : list Env) (g : Globals)
    (Hsetup : setup ready fuel = Some (effects, polls)) :
  pin_modes effects !! LIGHT = Some OUTPUT
  /\ pin_modes effects !! LIGHT_BUTTON = Some INPUT_PULLUP
  /\ pin_modes effects !! CHARGING_RATE = Some INPUT
  /\ Forall (fun write => pin_modes effects !! fst write = Some OUTPUT)
       (pin_writes (snd (run inputs g))).
Proof.
  unfold setup in Hsetup.
  destruct (wait_for_serial ready 0 fuel); [| discriminate Hsetup].
  injection Hsetup as <- _.
  assert (Hlight : pin_modes
                     [ SerialBegin 9600; PinMode LIGHT OUTPUT;
                       PinMode LIGHT_BUTTON INPUT_PULLUP;
                       PinMode CHARGING_RATE INPUT ] !! LIGHT = Some OUTPUT)
    by (vm_compute; reflexivity).
  split; [exact Hlight |].
  split; [vm_compute; reflexivity |].
  split; [vm_compute; reflexivity |].
  rewrite run_pin_writes_alternating.
  generalize (light_on g) (count_true (toggle_trace inputs g)).
  intros lit k. revert lit.
  induction k as [|k IH]; intros lit; [apply List.Forall_nil |].
  apply List.Forall_cons; [exact Hlight | apply IH].
Qed.

Lemma setup_configures_the_pins_of_loop_witness :
  setup (fun k => (2 <=? k)%nat) 5 =
  Some ([ SerialBegin 9600; PinMode LIGHT OUTPUT;
          PinMode LIGHT_BUTTON INPUT_PULLUP;
          PinMode CHARGING_RATE INPUT ], 2%nat) /\
  pin_modes [ SerialBegin 9600; PinMode LIGHT OUTPUT;
              PinMode LIGHT_BUTTON INPUT_PULLUP;
              PinMode CHARGING_RATE INPUT ] !! LIGHT = Some OUTPUT.
Proof.
  assert (Hs : setup (fun k => (2 <=? k)%nat) 5 =
               Some ([ SerialBegin 9600; PinMode LIGHT OUTPUT;
                       PinMode LIGHT_BUTTON INPUT_PULLUP;
                       PinMode CHARGING_RATE INPUT ], 2%nat))
    by reflexivity.
  split; [exact Hs |].
  exact (proj1 (setup_configures_the_pins_of_loop
                  (fun k => (2 <=? k)%nat) 5 2 _
                  [reads 530 PRESSED] initial Hs)).
Defined.
